(** * Path resolution and file reconciliation of the Tiptap CLI

    A shallow embedding of [packages/cli/src/utils/updaters/update-files.ts]
    and the properties of its functions [findCommonRoot],
    [getNormalizedFileContent], [resolvePageTarget], [resolveNestedFilePath],
    [resolveFileTargetDirectory], [resolveFilePath] and [updateFiles].

    - JavaScript strings are [list ascii]: the bytes of the text in UTF-8
      (a literal is written [str "..."]).  The patterns the source searches
      for are made of one-byte characters, and a one-byte character occurs
      in UTF-8 only as itself, so searching, splitting and replacing act on
      the bytes as they act on the text; the characters beyond one byte
      that a method singles out (the white space of [trim], the line
      terminators the dot of a regular expression stops at) are listed as
      byte sequences.  Text that UTF-8 cannot carry (a surrogate on its
      own) is left out.  The string methods and the regular expressions
      the source uses are functions on these lists, in module [Js].
    - [Path] is the POSIX flavour of Node's [path] module.
    - [Fs] is a file system: a finite map from paths to files and
      directories, in which reads, [mkdir -p] and writes can fail; a path
      that ends in a slash names a directory or nothing.
    - [updateFiles] is an action on a [World] (file system, prompts answered,
      calls made so far) that returns a manifest or rejects; the transformer
      pipeline, project detection and the answers to the prompts are
      parameters. *)

From Stdlib Require Import Ascii DecimalString.
From stdpp Require Import gmap strings list.

Set Default Proof Using "Type".

(** ** JavaScript string primitives *)

Definition str (s : string) : list ascii := String.list_ascii_of_string s.

Module Js.

Definition slash : ascii := "/"%char.

(** A JavaScript string is falsy exactly when it is empty. *)
Definition truthy (s : list ascii) : bool :=
  match s with [] => false | _ :: _ => true end.

(** [a === b] on strings. *)
Definition streq (a b : list ascii) : bool := bool_decide (a = b).

(** [s.startsWith(p)]. *)
Fixpoint startsWith (p s : list ascii) : bool :=
  match p, s with
  | [], _ => true
  | _ :: _, [] => false
  | a :: p', b :: s' => Ascii.eqb a b && startsWith p' s'
  end.

(** [s.endsWith(p)], used for regular expressions anchored by [$]. *)
Definition endsWith (p s : list ascii) : bool :=
  startsWith (reverse p) (reverse s).

(** First occurrence of [pat] in [s]: the text before it and the text
    after it ([s.indexOf(pat)] together with the two slices). *)
Fixpoint cut (pat s : list ascii) : option (list ascii * list ascii) :=
  if startsWith pat s then Some ([], drop (length pat) s)
  else match s with
       | [] => None
       | c :: s' =>
           match cut pat s' with
           | Some (b, a) => Some (c :: b, a)
           | None => None
           end
       end.

(** [s.includes(pat)]. *)
Definition includes (pat s : list ascii) : bool :=
  match cut pat s with Some _ => true | None => false end.

(** [s.replace(pat, rep)] with a string pattern: only the first
    occurrence is replaced, wherever it is. *)
Definition replaceFirst (pat rep s : list ascii) : list ascii :=
  match cut pat s with
  | Some (b, a) => b ++ rep ++ a
  | None => s
  end.

(** [s.split(sep)[1]] for a non-empty string separator: the text between
    the first and the second occurrence of [sep]; [None] stands for
    [undefined]. *)
Definition splitSecond (sep s : list ascii) : option (list ascii) :=
  match cut sep s with
  | None => None
  | Some (_, r) =>
      match cut sep r with
      | Some (b, _) => Some b
      | None => Some r
      end
  end.

(** [s.split("/")] for a one-character separator; never the empty list. *)
Fixpoint split (sep : ascii) (s : list ascii) : list (list ascii) :=
  match s with
  | [] => [[]]
  | c :: s' =>
      if Ascii.eqb c sep then [] :: split sep s'
      else match split sep s' with
           | seg :: segs => (c :: seg) :: segs
           | [] => [[c]]
           end
  end.

(** [segs.join(sep)]. *)
Fixpoint join (sep : list ascii) (segs : list (list ascii)) : list ascii :=
  match segs with
  | [] => []
  | [x] => x
  | x :: rest => x ++ sep ++ join sep rest
  end.

Fixpoint dropWhile {A} (f : A → bool) (l : list A) : list A :=
  match l with
  | x :: l' => if f x then dropWhile f l' else l
  | [] => []
  end.

Fixpoint takeWhile {A} (f : A → bool) (l : list A) : list A :=
  match l with
  | x :: l' => if f x then x :: takeWhile f l' else []
  | [] => []
  end.

(** [l.slice(0, -1)]. *)
Definition dropLast {A} (l : list A) : list A := take (length l - 1) l.

(** [s.replace] of the pattern [/^\//] by the empty string. *)
Definition stripLeadingSlash (s : list ascii) : list ascii :=
  match s with
  | c :: r => if Ascii.eqb c slash then r else s
  | [] => []
  end.

(** [s.replace] of the pattern [/\/$/] by the empty string. *)
Definition stripTrailingSlash (s : list ascii) : list ascii :=
  reverse (stripLeadingSlash (reverse s)).

(** [s.replace(/\r\n/g, "\n")]. *)
Fixpoint replaceCrLf (s : list ascii) : list ascii :=
  match s with
  | [] => []
  | c :: s' =>
      match s' with
      | d :: s'' =>
          if Ascii.eqb c "013" && Ascii.eqb d "010"
          then "010"%char :: replaceCrLf s''
          else c :: replaceCrLf s'
      | [] => [c]
      end
  end.

Definition bytes (codes : list nat) : list ascii := ascii_of_nat <$> codes.

(** The line terminators of ECMAScript, in UTF-8: line feed, carriage
    return, U+2028 (line separator) and U+2029 (paragraph separator). *)
Definition lineTerminators : list (list ascii) :=
  bytes <$> [[10]; [13]; [226; 128; 168]; [226; 128; 169]].

(** The characters [trim] removes, in UTF-8: the white space of ECMAScript
    (tab, vertical tab, form feed, space, U+00A0, U+FEFF and the other
    space separators of Unicode: U+1680, U+2000 to U+200A, U+202F, U+205F,
    U+3000) and the line terminators. *)
Definition whiteSpace : list (list ascii) :=
  (bytes <$> [[9]; [11]; [12]; [32]; [194; 160]; [239; 187; 191];
              [225; 154; 128]])
  ++ ((λ n, bytes [226; 128; n]) <$> seq 128 11)
  ++ (bytes <$> [[226; 128; 175]; [226; 129; 159]; [227; 128; 128]])
  ++ lineTerminators.

(** One of the sequences [seqs] removed from the start of [s], if [s]
    starts with one. *)
Definition stripOne (seqs : list (list ascii)) (s : list ascii)
    : option (list ascii) :=
  match List.find (λ t, startsWith t s) seqs with
  | Some t => Some (drop (length t) s)
  | None => None
  end.

(** The sequences [seqs] removed from the start of [s] for as long as it
    starts with one; every removal shortens [s], so [length s] rounds are
    enough. *)
Fixpoint stripLoop (seqs : list (list ascii)) (rounds : nat) (s : list ascii)
    : list ascii :=
  match rounds with
  | 0 => s
  | S rounds' =>
      match stripOne seqs s with
      | Some s' => stripLoop seqs rounds' s'
      | None => s
      end
  end.

(** [s.trimStart()], [s.trimEnd()] and [s.trim()]. *)
Definition trimStart (s : list ascii) : list ascii :=
  stripLoop whiteSpace (length s) s.

Definition trimEnd (s : list ascii) : list ascii :=
  reverse (stripLoop (reverse <$> whiteSpace) (length s) (reverse s)).

Definition trim (s : list ascii) : list ascii := trimStart (trimEnd s).

(** What [.*] matches at the start of [s]: the dot of a regular expression
    matches every character but a line terminator, so the text up to the
    first line terminator. *)
Fixpoint firstLine (s : list ascii) : list ascii :=
  match s with
  | [] => []
  | c :: s' =>
      if existsb (λ t, startsWith t s) lineTerminators then []
      else c :: firstLine s'
  end.

End Js.

(** ** Node's [path] module (POSIX flavour) *)

Module Path.
Import Js.

Definition isSlash (c : ascii) : bool := Ascii.eqb c slash.

Definition dot : list ascii := str ".".
Definition dotdot : list ascii := str "..".

(** [normalizeString]: empty and ["."] segments vanish, [".."] removes the
    segment before it; above the start of a relative path [".."] is kept,
    above the root it is dropped.  [stack] holds the kept segments, last
    one first. *)
Fixpoint normalizeSegments (allowAboveRoot : bool)
    (stack segs : list (list ascii)) : list (list ascii) :=
  match segs with
  | [] => reverse stack
  | s :: rest =>
      if streq s [] || streq s dot then
        normalizeSegments allowAboveRoot stack rest
      else if streq s dotdot then
        match stack with
        | top :: stack' =>
            if streq top dotdot then
              normalizeSegments allowAboveRoot
                (if allowAboveRoot then dotdot :: stack else stack) rest
            else normalizeSegments allowAboveRoot stack' rest
        | [] =>
            normalizeSegments allowAboveRoot
              (if allowAboveRoot then [dotdot] else []) rest
        end
      else normalizeSegments allowAboveRoot (s :: stack) rest
  end.

Definition isAbsolute (p : list ascii) : bool := startsWith [slash] p.

(** [path.normalize(p)]. *)
Definition normalize (p : list ascii) : list ascii :=
  match p with
  | [] => dot
  | _ :: _ =>
      let absolute := isAbsolute p in
      let trailingSeparator := endsWith [slash] p in
      let body :=
        join [slash] (normalizeSegments (negb absolute) [] (split slash p)) in
      match body with
      | [] =>
          if absolute then [slash]
          else if trailingSeparator then str "./" else dot
      | _ :: _ =>
          let body' := if trailingSeparator then body ++ [slash] else body in
          if absolute then slash :: body' else body'
      end
  end.

(** [path.join(...args)]: empty arguments are ignored. *)
Definition join (args : list (list ascii)) : list ascii :=
  match filter (λ a, a ≠ []) args with
  | [] => dot
  | parts => normalize (Js.join [slash] parts)
  end.

(** [path.dirname(p)]. *)
Definition dirname (p : list ascii) : list ascii :=
  match p with
  | [] => dot
  | c0 :: rest =>
      let hasRoot := isSlash c0 in
      let r1 := dropWhile isSlash (reverse rest) in
      match dropWhile (λ c, negb (isSlash c)) r1 with
      | [] => if hasRoot then [slash] else dot
      | _ :: r3 =>
          match r3 with
          | [] => if hasRoot then str "//" else [c0]
          | _ :: _ => c0 :: reverse r3
          end
      end
  end.

(** [path.basename(p)]. *)
Definition basename (p : list ascii) : list ascii :=
  reverse (takeWhile (λ c, negb (isSlash c)) (dropWhile isSlash (reverse p))).

(** Segments of [path.resolve(p)] below the root; a relative path is
    resolved against the working directory of the process. *)
Definition resolveSegments (processCwd p : list ascii) : list (list ascii) :=
  let full := if isAbsolute p then p else processCwd ++ slash :: p in
  normalizeSegments false [] (split slash full).

Fixpoint dropCommon (a b : list (list ascii))
    : list (list ascii) * list (list ascii) :=
  match a, b with
  | x :: a', y :: b' => if streq x y then dropCommon a' b' else (a, b)
  | _, _ => (a, b)
  end.

(** [path.relative(from, to)]. *)
Definition relative (processCwd from to : list ascii) : list ascii :=
  if streq from to then []
  else
    let '(up, down) :=
      dropCommon (resolveSegments processCwd from)
                 (resolveSegments processCwd to) in
    Js.join [slash] (replicate (length up) dotdot ++ down).

End Path.

(** ** Data model *)

(** [z.infer<typeof registryItemFileSchema>]: [type] is kept as the string
    the source compares it with; an optional field is an [option]. *)
Record RegistryFile := {
  path : list ascii;
  type : list ascii;
  target : option (list ascii);
  content : option (list ascii)
}.

Record ResolvedPaths := {
  cwd : list ascii;
  tiptapUi : list ascii;
  tiptapUiPrimitives : list ascii;
  tiptapExtensions : list ascii;
  tiptapNodes : list ascii;
  tiptapIcons : list ascii;
  hooks : list ascii;
  lib : list ascii;
  contexts : list ascii;
  components : list ascii;
  styles : list ascii
}.

Record Config := {
  resolvedPaths : ResolvedPaths;
  tsx : bool
}.

(** [ProjectInfo], as far as [updateFiles] reads it. *)
Record ProjectInfo := {
  isSrcDir : bool;
  frameworkName : list ascii
}.

(** The third argument of [resolveFilePath]. *)
Record ResolveOptions := {
  optIsSrcDir : option bool;
  optCommonRoot : option (list ascii);
  optFramework : option (list ascii)
}.

(** Truthiness of an optional string: [undefined] and the empty string are
    falsy. *)
Definition present (o : option (list ascii)) : bool :=
  match o with Some s => Js.truthy s | None => false end.

(** ** Pure helpers of update-files.ts *)

Section FindCommonRoot.
Import Js.

Variables (normalizedPaths : list (list ascii)) (normalizedNeedle : list ascii).
Variable needleSegments : list (list ascii).

(** [normalizedPaths.some(path => path !== normalizedNeedle &&
    path.startsWith(testPath + "/"))]. *)
Definition hasRelatedPaths (testPath : list ascii) : bool :=
  existsb (λ p, negb (streq p normalizedNeedle)
                && startsWith (testPath ++ [slash]) p) normalizedPaths.

(** The loop [for (let i = needleSegments.length; i > 0; i--)]; [None]
    when it runs to its end. *)
Fixpoint commonRootLoop (i : nat) : option (list ascii) :=
  match i with
  | 0 => None
  | S i' =>
      let testPath := join [slash] (take i needleSegments) in
      if hasRelatedPaths testPath then Some (slash :: testPath)
      else commonRootLoop i'
  end.
End FindCommonRoot.

Definition findCommonRoot (paths : list (list ascii)) (needle : list ascii)
    : list ascii :=
  let normalizedPaths := map Js.stripLeadingSlash paths in
  let normalizedNeedle := Js.stripLeadingSlash needle in
  let needleDir :=
    Js.join [Js.slash] (Js.dropLast (Js.split Js.slash normalizedNeedle)) in
  if negb (Js.truthy needleDir) then []
  else
    let needleSegments := Js.split Js.slash needleDir in
    match commonRootLoop normalizedPaths normalizedNeedle needleSegments
            (length needleSegments) with
    | Some root => root
    | None => Js.slash :: needleDir
    end.

Definition getNormalizedFileContent (content : list ascii) : list ascii :=
  Js.trim (Js.replaceCrLf content).

(** [s.replace(/^app\//, rep)]. *)
Definition replaceAppPrefix (rep s : list ascii) : list ascii :=
  if Js.startsWith (str "app/") s then rep ++ drop 4 s else s.

(** The extensions accepted by [(\.[jt]sx?)]. *)
Definition pageExtensions : list (list ascii) :=
  [str ".js"; str ".jsx"; str ".ts"; str ".tsx"].

(** [s.replace(/\/page(\.[jt]sx?)$/, "$1")]: the pattern is anchored at the
    end, so it matches iff [s] ends with ["/page"] followed by one of the
    four extensions, and at most one of them fits. *)
Definition stripPageSegment (s : list ascii) : list ascii :=
  match find (λ e, Js.endsWith (str "/page" ++ e) s) pageExtensions with
  | Some e => take (length s - length (str "/page" ++ e)) s ++ e
  | None => s
  end.

Definition resolvePageTarget (target : list ascii)
    (framework : option (list ascii)) : list ascii :=
  if negb (present framework) then []
  else if bool_decide (framework = Some (str "next-app")) then target
  else if bool_decide (framework = Some (str "next-pages")) then
    stripPageSegment (replaceAppPrefix (str "pages/") target)
  else if bool_decide (framework = Some (str "react-router")) then
    stripPageSegment (replaceAppPrefix (str "app/routes/") target)
  else if bool_decide (framework = Some (str "laravel")) then
    stripPageSegment (replaceAppPrefix (str "resources/js/pages/") target)
  else [].

Definition resolveFileTargetDirectory (file : RegistryFile) (config : Config)
    (override : option (list ascii)) : list ascii :=
  let paths := resolvedPaths config in
  let isType t := Js.streq (type file) (str t) in
  if present override then default [] override
  else if isType "registry:ui" then tiptapUi paths
  else if isType "registry:ui-primitive" then tiptapUiPrimitives paths
  else if isType "registry:extension" then tiptapExtensions paths
  else if isType "registry:node" then tiptapNodes paths
  else if isType "registry:icon" then tiptapIcons paths
  else if isType "registry:hook" then hooks paths
  else if isType "registry:lib" then lib paths
  else if isType "registry:context" then contexts paths
  else if isType "registry:template" || isType "registry:component" then components paths
  else if isType "registry:style" then styles paths
  else components paths.

(** [segments.findIndex(p)]; [None] stands for [-1]. *)
Fixpoint findIndex {A} (p : A → bool) (l : list A) : option nat :=
  match l with
  | [] => None
  | x :: l' => if p x then Some 0 else S <$> findIndex p l'
  end.

Definition resolveNestedFilePath (filePath targetDir : list ascii) : list ascii :=
  (* /^\/|\/$/g removes one leading and one trailing slash *)
  let normalizedFilePath := Js.stripTrailingSlash (Js.stripLeadingSlash filePath) in
  let normalizedTargetDir := Js.stripTrailingSlash (Js.stripLeadingSlash targetDir) in
  let fileSegments := Js.split Js.slash normalizedFilePath in
  let targetSegments := Js.split Js.slash normalizedTargetDir in
  let lastTargetSegment := default [] (last targetSegments) in
  match findIndex (λ segment, Js.streq segment lastTargetSegment) fileSegments with
  | None => default [] (last fileSegments)
  | Some commonDirIndex => Js.join [Js.slash] (drop (commonDirIndex + 1) fileSegments)
  end.

(** *** The two template patterns of [resolveFilePath] *)

Definition templatesPrefix : list ascii := str "tiptap-templates/".

(** [([^/]+)\/] read at the start of [s]: the non-empty run of characters
    other than [/], which a [/] must follow, and the text after that [/]. *)
Definition templateNameAt (s : list ascii) : option (list ascii * list ascii) :=
  let name := Js.takeWhile (λ c, negb (Path.isSlash c)) s in
  match name, Js.dropWhile (λ c, negb (Path.isSlash c)) s with
  | _ :: _, _ :: rest => Some (name, rest)
  | _, _ => None
  end.

(** [s.match] with the pattern [tiptap-templates/], a group of one or more
    characters other than [/], a [/], and a group of any characters up to the
    end of the line: the leftmost position at which the pattern fits; the
    groups are the template name and the relative path. *)
Fixpoint matchTemplatePath (s : list ascii) : option (list ascii * list ascii) :=
  let here :=
    if Js.startsWith templatesPrefix s
    then templateNameAt (drop (length templatesPrefix) s)
    else None in
  match here with
  | Some (name, rest) =>
      Some (name, Js.firstLine rest)
  | None =>
      match s with
      | [] => None
      | _ :: s' => matchTemplatePath s'
      end
  end.

(** [s.match] with the same pattern cut after the second [/]: the first
    group. *)
Fixpoint matchTemplateName (s : list ascii) : option (list ascii) :=
  let here :=
    if Js.startsWith templatesPrefix s
    then templateNameAt (drop (length templatesPrefix) s)
    else None in
  match here with
  | Some (name, _) => Some name
  | None =>
      match s with
      | [] => None
      | _ :: s' => matchTemplateName s'
      end
  end.

(** "Special handling for template files without targets"; [None] when the
    branch is not taken or its pattern does not match. *)
Definition templateFileRule (file : RegistryFile) (config : Config)
    : option (list ascii) :=
  if negb (present (target file))
     && Js.includes templatesPrefix (path file)
     && negb (Js.streq (type file) (str "registry:page"))
  then
    match matchTemplatePath (path file) with
    | Some (templateName, relativePath) =>
        if Js.startsWith (str "components/") relativePath then
          let finalPath := Js.replaceFirst (str "components/") [] relativePath in
          Some (Path.join [components (resolvedPaths config);
                           str "tiptap-templates"; templateName; finalPath])
        else
          Some (Path.join [components (resolvedPaths config);
                           str "tiptap-templates"; templateName; relativePath])
    | None => None
    end
  else None.

(** "Special handling for data files with targets in templates".  The
    target contains ["/data/"] here, so [split("/data/")[1]] is defined. *)
Definition templateDataRule (file : RegistryFile) (config : Config)
    : option (list ascii) :=
  let fileTarget := default [] (target file) in
  if present (target file)
     && Js.includes templatesPrefix (path file)
     && Js.includes (str "/data/") fileTarget
  then
    match matchTemplateName (path file), Js.splitSecond (str "/data/") fileTarget with
    | Some templateName, Some dataPath =>
        Some (Path.join [components (resolvedPaths config);
                         str "tiptap-templates"; templateName;
                         str "data"; dataPath])
    | _, _ => None
    end
  else None.

(** "Original logic for files with explicit targets"; [fileTarget] is
    truthy. *)
Definition explicitTargetRule (file : RegistryFile) (config : Config)
    (options : ResolveOptions) (fileTarget : list ascii) : list ascii :=
  let root := cwd (resolvedPaths config) in
  if Js.startsWith (str "~/") fileTarget then
    Path.join [root; Js.replaceFirst (str "~/") [] fileTarget]
  else
    let target' :=
      if Js.streq (type file) (str "registry:page")
      then resolvePageTarget fileTarget (optFramework options)
      else fileTarget in
    if negb (Js.truthy target') then []
    else if default false (optIsSrcDir options)
    then Path.join [root; str "src"; Js.replaceFirst (str "src/") [] target']
    else Path.join [root; Js.replaceFirst (str "src/") [] target'].

Definition resolveFilePath (file : RegistryFile) (config : Config)
    (options : ResolveOptions) : list ascii :=
  match templateFileRule file config with
  | Some p => p
  | None =>
      match templateDataRule file config with
      | Some p => p
      | None =>
          if present (target file) then
            explicitTargetRule file config options (default [] (target file))
          else
            let targetDir := resolveFileTargetDirectory file config None in
            let relativePath := resolveNestedFilePath (path file) targetDir in
            Path.join [targetDir; relativePath]
      end
  end.

(** [filePath.replace(/\.tsx?$/, m => m === ".tsx" ? ".jsx" : ".js")]. *)
Definition downgradeExtension (filePath : list ascii) : list ascii :=
  if Js.endsWith (str ".tsx") filePath
  then take (length filePath - 4) filePath ++ str ".jsx"
  else if Js.endsWith (str ".ts") filePath
  then take (length filePath - 3) filePath ++ str ".js"
  else filePath.

(** ** The file system

    A finite map from path strings to nodes.  The roots ["/"], ["."] and
    [".."] (and [../..], and so on) are directories that always exist.  Paths are looked up as they are written
    (the paths [updateFiles] uses come out of [path.join] and are
    normalized), but for the slash [path.join] keeps at the end of a path:
    such a path names the directory written before the slash, or nothing.
    A path that holds a null byte is refused by Node before it reaches the
    file system.  A node is kept under one spelling of its path, the one
    the program uses: a relative and an absolute path are different keys.  Links, access rights and the limits of the host are not
    modelled, so an operation fails only for a path that is refused or for
    the shape of the tree: a missing parent, a file where a directory is
    needed, a directory where a file is needed. *)

Module Fs.

Inductive Node :=
  | File (data : list ascii)
  | Dir.

Inductive Error :=
  | ENOENT (p : list ascii)
  | EISDIR (p : list ascii)
  | ENOTDIR (p : list ascii)
  | EEXIST (p : list ascii)
  | EINVAL (p : list ascii).   (* [ERR_INVALID_ARG_VALUE]: a null byte *)

(** A path Node accepts: one without a null byte. *)
Definition valid (p : list ascii) : bool :=
  negb (existsb (Ascii.eqb Ascii.zero) p).

(** The directories that are always there: the root, the working
    directory, and the directories above it, written [..], [../..] and so
    on. *)
Definition isRoot (p : list ascii) : bool :=
  Js.streq p [Js.slash] || Js.streq p Path.dot
  || forallb (λ seg, Js.streq seg Path.dotdot) (Js.split Js.slash p).

(** A path other than the roots that ends in a slash. *)
Definition trailing (p : list ascii) : bool :=
  negb (isRoot p) && Js.endsWith [Js.slash] p.

(** [p] without the slashes at its end; a path made of slashes only is
    the root. *)
Definition bare (p : list ascii) : list ascii :=
  match Js.dropWhile Path.isSlash (reverse p) with
  | [] => if Js.truthy p then [Js.slash] else []
  | c :: r => reverse (c :: r)
  end.

(** The path under which the node [p] names is kept. *)
Definition key (p : list ascii) : list ascii :=
  if trailing p then bare p else p.

Definition isDirectory (fs : gmap (list ascii) Node) (p : list ascii) : bool :=
  valid p
  && (isRoot (key p)
      || match fs !! key p with Some Dir => true | _ => false end).

(** [existsSync(p)]: a regular file is not found through a path that ends
    in a slash, and nothing through a path that is refused. *)
Definition existsSync (fs : gmap (list ascii) Node) (p : list ascii) : bool :=
  valid p
  && (isRoot (key p)
      || match fs !! key p with
         | Some Dir => true
         | Some (File _) => negb (trailing p)
         | None => false
         end).

(** [fs.readFile(p, "utf-8")]. *)
Definition readFile (fs : gmap (list ascii) Node) (p : list ascii)
    : Error + list ascii :=
  if negb (valid p) then inl (EINVAL p)
  else if isRoot (key p) then inl (EISDIR p)
  else match fs !! key p with
       | Some (File data) => if trailing p then inl (ENOTDIR p) else inr data
       | Some Dir => inl (EISDIR p)
       | None => inl (ENOENT p)
       end.

(** The directories [mkdir -p] visits: every non-empty prefix of the
    segments of [d], outermost first, [d] itself last. *)
Definition ancestors (d : list ascii) : list (list ascii) :=
  let segs := Js.split Js.slash d in
  (λ i, Js.join [Js.slash] (take i segs)) <$> seq 1 (length segs).

(** The directories [dirs] made in turn, for a call that asked for
    [requested]: a regular file in the way rejects the call, with [EEXIST]
    when it is at the last of them, the directory asked for. *)
Fixpoint mkdirChain (requested : list ascii) (fs : gmap (list ascii) Node)
    (dirs : list (list ascii)) : Error + gmap (list ascii) Node :=
  match dirs with
  | [] => inr fs
  | d :: rest =>
      if isRoot d || negb (Js.truthy d) then mkdirChain requested fs rest
      else match fs !! d with
           | Some Dir => mkdirChain requested fs rest
           | Some (File _) =>
               inl (match rest with
                    | [] => EEXIST requested
                    | _ :: _ => ENOTDIR requested
                    end)
           | None => mkdirChain requested (<[d := Dir]> fs) rest
           end
  end.

(** [fs.mkdir(d, { recursive: true })]. *)
Definition mkdir (fs : gmap (list ascii) Node) (d : list ascii)
    : Error + gmap (list ascii) Node :=
  if negb (valid d) then inl (EINVAL d)
  else mkdirChain d fs (ancestors (key d)).

(** [fs.writeFile(p, data, "utf-8")]: creates or replaces the regular file
    at [p]; its parent directory must exist, and [p] must not be empty,
    hold a null byte nor end in a slash. *)
Definition writeFile (fs : gmap (list ascii) Node) (p data : list ascii)
    : Error + gmap (list ascii) Node :=
  if negb (valid p) then inl (EINVAL p)
  else if negb (Js.truthy p) then inl (ENOENT p)
  else if isDirectory fs p then inl (EISDIR p)
  else if trailing p then
    match fs !! key p with
    | Some (File _) => inl (ENOTDIR p)
    | _ =>
        if isDirectory fs (Path.dirname p) then inl (EISDIR p)
        else if existsSync fs (Path.dirname p) then inl (ENOTDIR p)
        else inl (ENOENT p)
    end
  else if isDirectory fs (Path.dirname p) then inr (<[p := File data]> fs)
  else if existsSync fs (Path.dirname p) then inl (ENOTDIR p)
  else inl (ENOENT p).

End Fs.

(** ** Effects of [updateFiles] *)

(** Calls on the collaborators, in the order they are made. *)
Inductive Event :=
| SpinnerStart (text : list ascii) (silent : bool)
| SpinnerResume
| SpinnerStop
| SpinnerInfo (text : list ascii)
| SpinnerSucceed (text : list ascii)
| RootSpinnerStop
| RootSpinnerStart
| SummaryInfo (text : list ascii) (silent : bool)
| GetProjectInfo (dir : list ascii)
| ExistsSync (p : list ascii)
| ReadFile (p : list ascii)
| Mkdir (d : list ascii)
| WriteFile (p data : list ascii)
| Confirm (fileName : list ascii)
| Log (line : list ascii)
| LogBreak.

(** The world [updateFiles] runs in: the file system, the number of
    confirmation prompts answered so far, and the calls made so far. *)
Record World := {
  fs : gmap (list ascii) Fs.Node;
  asked : nat;
  trace : list Event
}.

Definition emit (e : Event) (w : World) : World :=
  {| fs := fs w; asked := asked w; trace := trace w ++ [e] |}.

Definition emits (es : list Event) (w : World) : World :=
  {| fs := fs w; asked := asked w; trace := trace w ++ es |}.

Definition setFs (fs' : gmap (list ascii) Fs.Node) (w : World) : World :=
  {| fs := fs'; asked := asked w; trace := trace w |}.

(** An awaited computation either returns or rejects; the world it leaves
    behind is kept in both cases. *)
Inductive Outcome (A : Type) :=
| Returned (a : A) (w : World)
| Thrown (e : Fs.Error) (w : World).
Arguments Returned {A} a w.
Arguments Thrown {A} e w.

Definition Action (A : Type) : Type := World → Outcome A.

Definition ret {A} (a : A) : Action A := λ w, Returned a w.

Definition bind {A B} (m : Action A) (k : A → Action B) : Action B :=
  λ w, match m w with
       | Returned a w' => k a w'
       | Thrown e w' => Thrown e w'
       end.

Notation "'do' x <- m ; k" := (bind m (λ x, k))
  (at level 10, x name, m at level 100, k at level 200, only parsing).
Notation "'do_' m ; k" := (bind m (λ _, k))
  (at level 10, m at level 100, k at level 200, only parsing).

Definition call (e : Event) : Action unit := λ w, Returned tt (emit e w).

Definition when (b : bool) (m : Action unit) : Action unit :=
  if b then m else ret tt.

Definition existsSync (p : list ascii) : Action bool :=
  λ w, Returned (Fs.existsSync (fs w) p) (emit (ExistsSync p) w).

Definition readFile (p : list ascii) : Action (list ascii) :=
  λ w, let w' := emit (ReadFile p) w in
       match Fs.readFile (fs w) p with
       | inr data => Returned data w'
       | inl e => Thrown e w'
       end.

Definition mkdir (d : list ascii) : Action unit :=
  λ w, let w' := emit (Mkdir d) w in
       match Fs.mkdir (fs w) d with
       | inr fs' => Returned tt (setFs fs' w')
       | inl e => Thrown e w'
       end.

Definition writeFile (p data : list ascii) : Action unit :=
  λ w, let w' := emit (WriteFile p data) w in
       match Fs.writeFile (fs w) p data with
       | inr fs' => Returned tt (setFs fs' w')
       | inl e => Thrown e w'
       end.

(** ** [updateFiles] *)

Record Options := {
  overwrite : bool;
  force : bool;
  silent : bool;
  rootSpinner : bool   (* whether [options.rootSpinner] is given *)
}.

Record Manifest := {
  filesCreated : list (list ascii);
  filesUpdated : list (list ascii);
  filesSkipped : list (list ascii)
}.

Definition emptyManifest : Manifest :=
  {| filesCreated := []; filesUpdated := []; filesSkipped := [] |}.

Definition pushCreated (p : list ascii) (m : Manifest) : Manifest :=
  {| filesCreated := filesCreated m ++ [p];
     filesUpdated := filesUpdated m;
     filesSkipped := filesSkipped m |}.

Definition pushUpdated (p : list ascii) (m : Manifest) : Manifest :=
  {| filesCreated := filesCreated m;
     filesUpdated := filesUpdated m ++ [p];
     filesSkipped := filesSkipped m |}.

Definition pushSkipped (p : list ascii) (m : Manifest) : Manifest :=
  {| filesCreated := filesCreated m;
     filesUpdated := filesUpdated m;
     filesSkipped := filesSkipped m ++ [p] |}.

(** [`${n}`] for a length. *)
Definition decimal (n : nat) : list ascii :=
  str (NilZero.string_of_uint (Nat.to_uint n)).

Definition fileOrFiles (n : nat) : list ascii :=
  if n =? 1 then str "file" else str "files".

Section UpdateFiles.

(** The collaborators outside this file: the transformer pipeline (a pure
    function of the file name, the raw content, the config and the
    [transformJsx] flag), project detection (it inspects the file system
    below the given directory), the answers of the user to the
    confirmation prompts (by rank of the prompt and file name), and the
    working directory of the process, against which [path.relative]
    resolves relative paths. *)
Variable transform : list ascii → list ascii → Config → bool → list ascii.
Variable getProjectInfo :
  gmap (list ascii) Fs.Node → list ascii → option ProjectInfo.
Variable confirm : nat → list ascii → bool.
Variable processCwd : list ascii.

Variables (config : Config) (options : Options).

Definition askConfirm (fileName : list ascii) : Action bool :=
  λ w, Returned (confirm (asked w) fileName)
         {| fs := fs w; asked := S (asked w);
            trace := trace w ++ [Confirm fileName] |}.

Definition relativeToCwd (filePath : list ascii) : list ascii :=
  Path.relative processCwd (cwd (resolvedPaths config)) filePath.

(** The options [updateFiles] passes to [resolveFilePath]. *)
Definition resolveOptions (projectInfo : option ProjectInfo)
    (allPaths : list (list ascii)) (file : RegistryFile) : ResolveOptions :=
  {| optIsSrcDir := isSrcDir <$> projectInfo;
     optFramework := frameworkName <$> projectInfo;
     optCommonRoot := Some (findCommonRoot allPaths (path file)) |}.

(** The extension downgrade when [config.tsx] is off. *)
Definition finalPath (filePath : list ascii) : list ascii :=
  if tsx config then filePath else downgradeExtension filePath.

(** Lines 140-148: create the directory, write, record. *)
Definition writeAndRecord (existingFile : bool)
    (filePath targetDir content : list ascii) (m : Manifest)
    : Action Manifest :=
  do targetDirExists <- existsSync targetDir;
  do_ when (negb targetDirExists) (mkdir targetDir);
  do_ writeFile filePath content;
  ret (if existingFile
       then pushUpdated (relativeToCwd filePath) m
       else pushCreated (relativeToCwd filePath) m).

(** Lines 107-138: the confirmation prompt of an existing, different file
    when [overwrite] is off; [true] when the file is to be written. *)
Definition confirmOverwrite (fileName : list ascii) : Action bool :=
  do_ call SpinnerStop;
  do_ when (rootSpinner options) (call RootSpinnerStop);
  do answer <- askConfirm fileName;
  if negb answer then
    do_ when (rootSpinner options) (call RootSpinnerStart);
    ret false
  else
    do_ call SpinnerResume;
    do_ when (rootSpinner options) (call RootSpinnerStart);
    ret true.

(** The body of [for (const file of files)]. *)
Definition updateFile (projectInfo : option ProjectInfo)
    (allPaths : list (list ascii)) (file : RegistryFile) (m : Manifest)
    : Action Manifest :=
  if negb (present (content file)) then ret m
  else
    let resolved :=
      resolveFilePath file config (resolveOptions projectInfo allPaths file) in
    if negb (Js.truthy resolved) then ret m
    else
      let fileName := Path.basename (path file) in
      let targetDir := Path.dirname resolved in
      let filePath := finalPath resolved in
      do existingFile <- existsSync filePath;
      let content :=
        transform (path file) (default [] (content file)) config
                  (negb (tsx config)) in
      do unchanged <-
        (if existingFile then
           do existingFileContent <- readFile filePath;
           ret (Js.streq (getNormalizedFileContent existingFileContent)
                         (getNormalizedFileContent content))
         else ret false);
      if unchanged then ret (pushSkipped (relativeToCwd filePath) m)
      else
        do go <-
          (if existingFile && negb (overwrite options)
           then confirmOverwrite fileName
           else ret true);
        if go then writeAndRecord existingFile filePath targetDir content m
        else ret (pushSkipped (relativeToCwd filePath) m).

Fixpoint updateLoop (projectInfo : option ProjectInfo)
    (allPaths : list (list ascii)) (files : list RegistryFile) (m : Manifest)
    : Action Manifest :=
  match files with
  | [] => ret m
  | file :: rest =>
      do m' <- updateFile projectInfo allPaths file m;
      updateLoop projectInfo allPaths rest m'
  end.

Definition logFiles (entries : list (list ascii)) : list Event :=
  if silent options then []
  else (λ file, Log (str "  - " ++ file)) <$> entries.

(** Lines 151-205: the summary printed at the end of a run. *)
Definition summary (m : Manifest) : list Event :=
  let created := length (filesCreated m) in
  let updated := length (filesUpdated m) in
  let skipped := length (filesSkipped m) in
  (if (created =? 0) && (updated =? 0) && (skipped =? 0)
   then [SpinnerInfo (str "No files updated.")] else [])
  ++ (if negb (created =? 0)
      then SpinnerSucceed (str "Created " ++ decimal created ++ str " "
                           ++ fileOrFiles created ++ str ":")
           :: logFiles (filesCreated m)
      else [SpinnerStop])
  ++ (if negb (updated =? 0)
      then SummaryInfo (str "Updated " ++ decimal updated ++ str " "
                        ++ fileOrFiles updated ++ str ":") (silent options)
           :: logFiles (filesUpdated m)
      else [])
  ++ (if negb (skipped =? 0)
      then SummaryInfo (str "Skipped " ++ decimal skipped ++ str " "
                        ++ fileOrFiles updated
                        ++ str ": (use --overwrite to overwrite)")
                       (silent options)
           :: logFiles (filesSkipped m)
      else [])
  ++ (if silent options then [] else [LogBreak]).

Definition detectProject : Action (option ProjectInfo) :=
  λ w, let dir := cwd (resolvedPaths config) in
       Returned (getProjectInfo (fs w) dir) (emit (GetProjectInfo dir) w).

(** [files] is [None] when the caller passes [undefined]. *)
Definition updateFiles (files : option (list RegistryFile)) : Action Manifest :=
  match files with
  | None | Some [] => ret emptyManifest
  | Some fileList =>
      do_ call (SpinnerStart (str "Updating files.") (silent options));
      do projectInfo <- detectProject;
      do m <- updateLoop projectInfo (path <$> fileList) fileList emptyManifest;
      λ w, Returned m (emits (summary m) w)
  end.

End UpdateFiles.

(** ** Vocabulary of the statements *)

(** A route target of the shape [app/<segments>/page.<ext>]. *)
Definition routeTarget (segments ext : list ascii) : list ascii :=
  str "app/" ++ segments ++ str "/page." ++ ext.

Definition knownFrameworks : list (list ascii) :=
  [str "next-app"; str "next-pages"; str "react-router"; str "laravel"].

(** The outcome recorded for one input file, if any. *)
Inductive Kind := Created | Updated | Skipped.

Definition record (k : option Kind) (entry : list ascii) (m : Manifest)
    : Manifest :=
  match k with
  | Some Created => pushCreated entry m
  | Some Updated => pushUpdated entry m
  | Some Skipped => pushSkipped entry m
  | None => m
  end.

(** The entries of kind [k] among per-file outcomes, in the order of the
    files. *)
Fixpoint entriesOf (k : Kind) (tagged : list (option Kind * list ascii))
    : list (list ascii) :=
  match tagged with
  | [] => []
  | (Some k', entry) :: rest =>
      match k, k' with
      | Created, Created | Updated, Updated | Skipped, Skipped =>
          entry :: entriesOf k rest
      | _, _ => entriesOf k rest
      end
  | (None, _) :: rest => entriesOf k rest
  end.

(** What the loop body of [updateFiles] computes for a file before it looks
    at the file system: the resolved path, the path written to, the
    transformed content, the manifest entry, and whether the file gets past
    the two [continue] guards. *)
Section PerFile.
Variable transform : list ascii → list ascii → Config → bool → list ascii.
Variable processCwd : list ascii.
Variable config : Config.
Variables (info : option ProjectInfo) (allPaths : list (list ascii)).

Definition resolvedOf (file : RegistryFile) : list ascii :=
  resolveFilePath file config (resolveOptions info allPaths file).

Definition filePathOf (file : RegistryFile) : list ascii :=
  finalPath config (resolvedOf file).

Definition newContentOf (file : RegistryFile) : list ascii :=
  transform (path file) (default [] (content file)) config (negb (tsx config)).

Definition entryOf (file : RegistryFile) : list ascii :=
  relativeToCwd processCwd config (filePathOf file).

Definition processed (file : RegistryFile) : bool :=
  present (content file) && Js.truthy (resolvedOf file).

(** The file that [file] is written to holds the content of [file], up to
    normalization. *)
Definition upToDate (fs : gmap (list ascii) Fs.Node) (file : RegistryFile)
    : Prop :=
  ∃ existing, Fs.readFile fs (filePathOf file) = inr existing
    ∧ getNormalizedFileContent existing
      = getNormalizedFileContent (newContentOf file).
End PerFile.

(** The calls that change the file system. *)
Definition isWrite (e : Event) : bool :=
  match e with
  | Mkdir _ | WriteFile _ _ => true
  | _ => false
  end.

Definition isPrompt (e : Event) : bool :=
  match e with
  | Confirm _ => true
  | _ => false
  end.

(** [target] with a leading ["src/"] removed, if it has one. *)
Definition stripLeadingSrc (target : list ascii) : list ascii :=
  if Js.startsWith (str "src/") target then drop 4 target else target.

(** [p] is made of leading segments of the directory [d]: it is [d] itself
    or is followed by a [/] in [d]. *)
Definition segmentPrefix (p d : list ascii) : Prop :=
  p = d ∨ ∃ rest, d = p ++ Js.slash :: rest.

(** Some other path of the list starts with [p] followed by a [/]; paths
    are compared without their leading slash. *)
Definition sharedWithSibling (paths : list (list ascii)) (needle p : list ascii)
    : Prop :=
  ∃ other, other ∈ paths
    ∧ Js.stripLeadingSlash other ≠ Js.stripLeadingSlash needle
    ∧ (p ++ [Js.slash]) `prefix_of` Js.stripLeadingSlash other.

(** ** Sample data *)

Module Sample.

Definition paths : ResolvedPaths :=
  {| cwd := str "/proj";
     tiptapUi := str "/proj/src/components/tiptap-ui";
     tiptapUiPrimitives := str "/proj/src/components/tiptap-ui-primitive";
     tiptapExtensions := str "/proj/src/components/tiptap-extension";
     tiptapNodes := str "/proj/src/components/tiptap-node";
     tiptapIcons := str "/proj/src/components/tiptap-icons";
     hooks := str "/proj/src/hooks";
     lib := str "/proj/src/lib";
     contexts := str "/proj/src/contexts";
     components := str "/proj/src/components";
     styles := str "/proj/src/styles" |}.

Definition config : Config := {| resolvedPaths := paths; tsx := true |}.

Definition options : Options :=
  {| overwrite := true; force := false; silent := false;
     rootSpinner := false |}.

(** A pipeline that leaves the content as it is. *)
Definition transform (_ raw : list ascii) (_ : Config) (_ : bool)
    : list ascii := raw.

Definition info : ProjectInfo :=
  {| isSrcDir := false; frameworkName := str "next-app" |}.

Definition getProjectInfo (_ : gmap (list ascii) Fs.Node) (_ : list ascii)
    : option ProjectInfo := Some info.

Definition confirm (_ : nat) (_ : list ascii) : bool := true.

Definition file (p t : string) (tgt : option string) (c : string)
    : RegistryFile :=
  {| path := str p; type := str t; target := str <$> tgt;
     content := Some (str c) |}.

Definition world (nodes : list (list ascii * Fs.Node)) : World :=
  {| fs := list_to_map nodes; asked := 0; trace := [] |}.

Definition run (files : list RegistryFile) : Action Manifest :=
  updateFiles transform getProjectInfo confirm (str "/") config options
              (Some files).

Definition step (file : RegistryFile) : Manifest → Action Manifest :=
  updateFile transform confirm (str "/") config options (Some info) [] file.

(** Two files aimed at the same target, a file at the project root, a
    file without content, and a page. *)
Definition libA : RegistryFile :=
  file "tiptap-lib/a.ts" "registry:lib" (Some "lib/a.ts") "aaa".
Definition libA' : RegistryFile :=
  file "tiptap-lib/b.ts" "registry:lib" (Some "lib/a.ts") "bbb".
Definition rootB : RegistryFile :=
  file "tiptap-lib/b.ts" "registry:lib" (Some "b.ts") "bbb".
Definition noContent : RegistryFile :=
  {| path := str "tiptap-lib/c.ts"; type := str "registry:lib";
     target := None; content := None |}.

(** A project with nothing in it, one in which [lib] is a regular file,
    and one in which [lib/a.ts] is installed with CRLF line ends. *)
Definition emptyProject : World := world [(str "/proj", Fs.Dir)].
Definition libIsFile : World :=
  world [(str "/proj", Fs.Dir); (str "/proj/lib", Fs.File (str "x"))].

End Sample.

(** ** Vocabulary of the further properties *)

(** The base directories of a configuration, [cwd] apart. *)
Definition configuredDirectories (config : Config) : list (list ascii) :=
  let paths := resolvedPaths config in
  [tiptapUi paths; tiptapUiPrimitives paths; tiptapExtensions paths;
   tiptapNodes paths; tiptapIcons paths; hooks paths; lib paths;
   contexts paths; components paths; styles paths].

(** The values of [type] that [resolveFileTargetDirectory] tests for. *)
Definition placedTypes : list (list ascii) :=
  [str "registry:ui"; str "registry:ui-primitive"; str "registry:extension";
   str "registry:node"; str "registry:icon"; str "registry:hook";
   str "registry:lib"; str "registry:context"; str "registry:template";
   str "registry:component"; str "registry:style"].

Definition carriageReturn : ascii := "013"%char.
Definition lineFeed : ascii := "010"%char.

(** The world an outcome leaves behind, returned or rejected. *)
Definition worldOf {A} (o : Outcome A) : World :=
  match o with
  | Returned _ w => w
  | Thrown _ w => w
  end.

(** [fs'] keeps what [fs] holds, the regular files at the paths [written]
    apart: a directory stays a directory, a regular file stays a regular
    file, and one that is not at a path of [written] keeps its content. *)
Definition preservedExcept (written : list (list ascii))
    (fs fs' : gmap (list ascii) Fs.Node) : Prop :=
  (∀ p, fs !! p = Some Fs.Dir → fs' !! p = Some Fs.Dir)
  ∧ (∀ p data, fs !! p = Some (Fs.File data) →
       ∃ data', fs' !! p = Some (Fs.File data'))
  ∧ (∀ p data, fs !! p = Some (Fs.File data) → p ∉ written →
       fs' !! p = Some (Fs.File data)).

(** The lines printed by [logger.log] among the calls made. *)
Definition loggedLines (events : list Event) : list (list ascii) :=
  omap (λ e, match e with Log line => Some line | _ => None end) events.

(** The number of entries of a manifest. *)
Definition entryCount (m : Manifest) : nat :=
  length (filesCreated m) + length (filesUpdated m) + length (filesSkipped m).

(** * Properties *)

(** ** Strings *)

Section StringFacts.
Import Js.

Lemma startsWith_prefix p s : startsWith p s = true ↔ p `prefix_of` s.
Proof.
  revert s; induction p as [|a p IH]; intros [|b s]; simpl.
  - split; [intros _; apply prefix_nil | done].
  - split; [intros _; apply prefix_nil | done].
  - split; [done | intros H; by apply prefix_nil_not in H].
  - rewrite andb_true_iff, IH. split.
    + intros [Hab Hp]. apply Ascii.eqb_eq in Hab as ->. by apply prefix_cons.
    + intros H. split.
      * apply Ascii.eqb_eq. by eapply prefix_cons_inv_1.
      * by eapply prefix_cons_inv_2.
Qed.

Lemma startsWith_app p r : startsWith p (p ++ r) = true.
Proof. apply startsWith_prefix. by exists r. Qed.

Lemma startsWith_false p s : startsWith p s = false ↔ ¬ p `prefix_of` s.
Proof.
  rewrite <- startsWith_prefix. destruct (startsWith p s); naive_solver.
Qed.

Lemma startsWith_app_short p x y :
  length p ≤ length x → startsWith p (x ++ y) = startsWith p x.
Proof.
  revert x; induction p as [|a p IH]; intros [|b x] Hlen; simpl in *;
    try done; try lia.
  rewrite IH by lia. done.
Qed.

(** A pattern no longer than the last part of a string is looked for in
    that part alone. *)
Lemma endsWith_app_short p a b :
  length p ≤ length b → endsWith p (a ++ b) = endsWith p b.
Proof.
  intros Hlen. unfold endsWith. rewrite reverse_app.
  apply startsWith_app_short. by rewrite !length_reverse.
Qed.

Lemma take_app_minus {A} (a b : list A) n :
  n = length b → take (length (a ++ b) - n) (a ++ b) = a.
Proof.
  intros ->. rewrite length_app.
  replace (length a + length b - length b) with (length a) by lia.
  by rewrite take_app_length.
Qed.
End StringFacts.

(** ** Route targets *)

Lemma find_page_extension pre e :
  e ∈ pageExtensions →
  find (λ e', Js.endsWith (str "/page" ++ e') (pre ++ str "/page" ++ e))
       pageExtensions = Some e.
Proof.
  intros He. unfold pageExtensions in *. unfold Js.endsWith.
  rewrite reverse_app. generalize (reverse pre) as rp; intros rp.
  set_unfold in He.
  destruct He as [->|[->|[->|[->|[]]]]]; vm_compute; reflexivity.
Qed.

Lemma stripPageSegment_page pre e :
  e ∈ pageExtensions →
  stripPageSegment (pre ++ str "/page" ++ e) = pre ++ e.
Proof.
  intros He. unfold stripPageSegment. rewrite find_page_extension by done.
  by rewrite take_app_minus.
Qed.

Lemma replaceAppPrefix_app rep rest :
  replaceAppPrefix rep (str "app/" ++ rest) = rep ++ rest.
Proof. reflexivity. Qed.

(** C3, as the code has it: for a target [app/<segments>/page.<ext>] whose
    extension is one of js, jsx, ts, tsx, [resolvePageTarget] returns the
    target itself for next-app; for next-pages, react-router and laravel it
    replaces the leading [app/] by [pages/], [app/routes/] and
    [resources/js/pages/] and drops the [/page] before the extension; for an
    absent, empty or unknown framework it returns the empty string, whatever
    the target. *)
Theorem resolvePageTarget_route (segments ext : list ascii) :
  ext ∈ [str "js"; str "jsx"; str "ts"; str "tsx"] →
  let target := routeTarget segments ext in
  resolvePageTarget target (Some (str "next-app")) = target
  ∧ resolvePageTarget target (Some (str "next-pages"))
    = str "pages/" ++ segments ++ str "." ++ ext
  ∧ resolvePageTarget target (Some (str "react-router"))
    = str "app/routes/" ++ segments ++ str "." ++ ext
  ∧ resolvePageTarget target (Some (str "laravel"))
    = str "resources/js/pages/" ++ segments ++ str "." ++ ext
  ∧ (∀ t, resolvePageTarget t None = [] ∧ resolvePageTarget t (Some []) = [])
  ∧ (∀ t framework, framework ∉ knownFrameworks →
       resolvePageTarget t (Some framework) = []).
Proof.
  intros Hext target.
  assert (Hdot : str "." ++ ext ∈ pageExtensions).
  { unfold pageExtensions. set_unfold in Hext. set_unfold.
    destruct Hext as [->|[->|[->|[->|[]]]]]; auto. }
  assert (Hrw : ∀ rep,
    stripPageSegment (replaceAppPrefix rep target) = rep ++ segments ++ str "." ++ ext).
  { intros rep. unfold target, routeTarget. rewrite replaceAppPrefix_app.
    change (str "/page." ++ ext) with (str "/page" ++ str "." ++ ext).
    rewrite (app_assoc rep), stripPageSegment_page by done.
    by rewrite <- app_assoc. }
  split_and!.
  - reflexivity.
  - apply (Hrw (str "pages/")).
  - apply (Hrw (str "app/routes/")).
  - apply (Hrw (str "resources/js/pages/")).
  - done.
  - intros t framework Hfw. unfold resolvePageTarget, knownFrameworks in *.
    set_unfold in Hfw.
    destruct (present (Some framework)); simpl; [|done].
    repeat (case_bool_decide; [simplify_eq; exfalso; auto 10|]). done.
Qed.

Lemma resolvePageTarget_route_witness :
  resolvePageTarget (str "app/settings/page.tsx") (Some (str "next-pages"))
  = str "pages/settings.tsx".
Proof.
  pose proof (resolvePageTarget_route (str "settings") (str "tsx")) as H.
  apply H. repeat constructor.
Defined.

(** C3 as stated, for every extension, fails: [page.mdx] keeps its [/page]
    segment. *)
Lemma resolvePageTarget_mdx_keeps_page :
  resolvePageTarget (routeTarget (str "docs") (str "mdx")) (Some (str "next-pages"))
  = str "pages/docs/page.mdx"
  ∧ resolvePageTarget (routeTarget (str "docs") (str "mdx")) (Some (str "next-pages"))
    ≠ str "pages/" ++ str "docs" ++ str "." ++ str "mdx".
Proof. split; [reflexivity | discriminate]. Qed.

(** ** The actions *)

Section ActionFacts.

Lemma truthy_true s : Js.truthy s = true ↔ s ≠ [].
Proof. by destruct s. Qed.

Lemma truthy_false s : Js.truthy s = false ↔ s = [].
Proof. by destruct s. Qed.

Lemma bind_returned {A B} (act : Action A) (k : A → Action B) w a w' :
  act w = Returned a w' → bind act k w = k a w'.
Proof. unfold bind. by intros ->. Qed.

Lemma bind_thrown {A B} (act : Action A) (k : A → Action B) w e w' :
  act w = Thrown e w' → bind act k w = Thrown e w'.
Proof. unfold bind. by intros ->. Qed.

Lemma bind_returned_inv {A B} (act : Action A) (k : A → Action B) w b w2 :
  bind act k w = Returned b w2 →
  ∃ a w1, act w = Returned a w1 ∧ k a w1 = Returned b w2.
Proof. unfold bind. destruct (act w); naive_solver. Qed.

Lemma emits_emits es es' w : emits es' (emits es w) = emits (es ++ es') w.
Proof. unfold emits. cbn. by rewrite app_assoc. Qed.

Lemma emit_emits e w : emit e w = emits [e] w.
Proof. reflexivity. Qed.

Lemma emits_nil w : emits [] w = w.
Proof. destruct w. unfold emits. cbn. by rewrite app_nil_r. Qed.

End ActionFacts.

(** ** Reading and writing *)

Section ReadWrite.
Implicit Types (fs : gmap (list ascii) Fs.Node) (p : list ascii).

Lemma key_plain p : Fs.trailing p = false → Fs.key p = p.
Proof. unfold Fs.key. by intros ->. Qed.

(** A read returns only for a regular file, at a path that Node accepts,
    that is no root and does not end in a slash. *)
Lemma readFile_inr fs p data :
  Fs.readFile fs p = inr data ↔
  Fs.valid p = true ∧ Fs.trailing p = false ∧ Fs.isRoot p = false
  ∧ fs !! p = Some (Fs.File data).
Proof.
  unfold Fs.readFile, Fs.key. split.
  - destruct (Fs.valid p); [|done]. cbn [negb].
    destruct (Fs.trailing p) eqn:Htrail.
    + destruct (Fs.isRoot (Fs.bare p)); [done|].
      by destruct (fs !! Fs.bare p) as [[|]|].
    + destruct (Fs.isRoot p); [done|].
      destruct (fs !! p) as [[|]|]; [|done..]. by intros [= ->].
  - by intros (-> & -> & -> & ->).
Qed.

Lemma readFile_existsSync fs p data :
  Fs.readFile fs p = inr data → Fs.existsSync fs p = true.
Proof.
  intros (Hvalid & Htrail & Hroot & Hfile)%readFile_inr.
  unfold Fs.existsSync.
  by rewrite Hvalid, (key_plain _ Htrail), Hroot, Hfile, Htrail.
Qed.

End ReadWrite.

(** ** The loop body of [updateFiles] *)

Section UpdateFileFacts.
Variable transform : list ascii → list ascii → Config → bool → list ascii.
Variable getProjectInfo :
  gmap (list ascii) Fs.Node → list ascii → option ProjectInfo.
Variable confirm : nat → list ascii → bool.
Variable processCwd : list ascii.
Variables (config : Config) (options : Options).

Local Abbreviation step :=
  (updateFile transform confirm processCwd config options).
Local Abbreviation loop :=
  (updateLoop transform confirm processCwd config options).
Local Abbreviation run :=
  (updateFiles transform getProjectInfo confirm processCwd config options).

Section Loop.
Variables (info : option ProjectInfo) (allPaths : list (list ascii)).

Local Abbreviation resolved := (resolvedOf config info allPaths).
Local Abbreviation filePath := (filePathOf config info allPaths).
Local Abbreviation newContent := (newContentOf transform config).
Local Abbreviation entry := (entryOf processCwd config info allPaths).
Local Abbreviation isProcessed := (processed config info allPaths).

Lemma updateLoop_app pre post m w :
  loop info allPaths (pre ++ post) m w
  = bind (loop info allPaths pre m) (loop info allPaths post) w.
Proof.
  revert m w; induction pre as [|f pre IH]; intros m w; simpl; [done|].
  unfold bind. destruct (step _ _ _ _ _) as [m1 w1|]; [|done].
  rewrite IH. done.
Qed.

Lemma updateFile_excluded file m w :
  isProcessed file = false → step info allPaths file m w = Returned m w.
Proof.
  unfold processed, updateFile. fold (resolved file).
  destruct (present (content file)); simpl; [|done].
  by intros ->.
Qed.

Lemma updateFile_unchanged file m w existing :
  isProcessed file = true →
  Fs.readFile (fs w) (filePath file) = inr existing →
  getNormalizedFileContent existing
  = getNormalizedFileContent (newContent file) →
  step info allPaths file m w
  = Returned (pushSkipped (entry file) m)
             (emits [ExistsSync (filePath file); ReadFile (filePath file)] w).
Proof.
  intros [Hc Hres]%andb_true_iff Hfile Hnorm.
  unfold updateFile. fold (resolved file).
  rewrite Hc, Hres. cbn [negb].
  fold (filePath file) (newContent file).
  unfold bind, existsSync. rewrite (readFile_existsSync _ _ _ Hfile).
  unfold readFile. cbn [fs emit]. rewrite Hfile.
  unfold ret, Js.streq. rewrite bool_decide_true by done.
  unfold emits, emit. cbn. by rewrite <- app_assoc.
Qed.

(** Whatever the loop body does, it adds at most one entry, the path of
    the file relative to the project root, to one of the three lists. *)
Lemma updateFile_record file m w m' w' :
  step info allPaths file m w = Returned m' w' →
  ∃ k, m' = record k (entry file) m
       ∧ (k = Some Created ∨ k = Some Updated → isProcessed file = true).
Proof.
  unfold updateFile, processed. fold (resolved file).
  destruct (present (content file)); cbn [negb andb];
    [|intros [= <- <-]; exists None; split; [done|intros [?|?]; done]].
  destruct (Js.truthy (resolved file)); cbn [negb];
    [|intros [= <- <-]; exists None; split; [done|intros [?|?]; done]].
  fold (filePath file) (newContent file) (entry file).
  unfold bind, existsSync, readFile, confirmOverwrite, writeAndRecord,
    askConfirm, bind, existsSync, mkdir, writeFile, when, call, ret.
  intros H.
  repeat (case_match; simplify_eq);
    first [ by exists (Some Skipped)
          | by exists (Some Created)
          | by exists (Some Updated) ].
Qed.

Lemma updateLoop_record files m w m' w' :
  loop info allPaths files m w = Returned m' w' →
  ∃ tags : list (option Kind),
    length tags = length files
    ∧ filesCreated m'
      = filesCreated m ++ entriesOf Created (zip tags (entry <$> files))
    ∧ filesUpdated m'
      = filesUpdated m ++ entriesOf Updated (zip tags (entry <$> files))
    ∧ filesSkipped m'
      = filesSkipped m ++ entriesOf Skipped (zip tags (entry <$> files))
    ∧ Forall2 (λ k file, k = Some Created ∨ k = Some Updated →
                         isProcessed file = true) tags files.
Proof.
  revert m w; induction files as [|file files IH]; intros m w; simpl.
  - intros [= <- <-]. exists []. by rewrite !app_nil_r.
  - intros (m1 & w1 & Hstep & Hrest)%bind_returned_inv.
    apply updateFile_record in Hstep as (k & -> & Hk).
    apply IH in Hrest as (tags & Hlen & Hc & Hu & Hs & Hall).
    exists (k :: tags). rewrite Hc, Hu, Hs.
    split_and!; [simpl; lia | | | | by constructor];
      destruct k as [[]|]; simpl; rewrite <- ?app_assoc; done.
Qed.

End Loop.

End UpdateFileFacts.

(** ** Reconciliation: one file, and the manifest *)

Section Reconciliation.
Variable transform : list ascii → list ascii → Config → bool → list ascii.
Variable getProjectInfo :
  gmap (list ascii) Fs.Node → list ascii → option ProjectInfo.
Variable confirm : nat → list ascii → bool.
Variable processCwd : list ascii.
Variables (config : Config) (options : Options).

Local Abbreviation step :=
  (updateFile transform confirm processCwd config options).
Local Abbreviation loop :=
  (updateLoop transform confirm processCwd config options).
Local Abbreviation run :=
  (updateFiles transform getProjectInfo confirm processCwd config options).

(** The world in which the loop of [updateFiles] starts. *)
Lemma updateFiles_unfold files w :
  files ≠ [] →
  run (Some files) w
  = let dir := cwd (resolvedPaths config) in
    match loop (getProjectInfo (fs w) dir) (path <$> files)
            files emptyManifest
            (emits [SpinnerStart (str "Updating files.") (silent options);
                    GetProjectInfo dir] w) with
    | Returned m w' => Returned m (emits (summary options m) w')
    | Thrown e w' => Thrown e w'
    end.
Proof.
  intros Hne. destruct files as [|file files]; [done|].
  unfold updateFiles, bind, call, detectProject.
  cbn [fs emit]. unfold emit, emits. cbn [fs asked trace].
  by rewrite <- app_assoc.
Qed.

(** C9: [resolveFilePath] never reads [commonRoot]: two option records
    that agree on [isSrcDir] and [framework] give the same path, and the
    loop body of [updateFiles] behaves the same whatever list of sibling
    paths the common root is computed from. *)
Theorem commonRoot_irrelevant (file : RegistryFile) (o1 o2 : ResolveOptions) :
  optIsSrcDir o1 = optIsSrcDir o2 →
  optFramework o1 = optFramework o2 →
  resolveFilePath file config o1 = resolveFilePath file config o2
  ∧ ∀ info allPaths allPaths' m w,
      step info allPaths file m w = step info allPaths' file m w.
Proof.
  intros Hsrc Hfw. split.
  - unfold resolveFilePath, explicitTargetRule. by rewrite Hsrc, Hfw.
  - reflexivity.
Qed.

(** C10: an absent or empty file list returns the empty manifest and
    leaves the world as it was: no file-system access, no prompt, no
    spinner, no summary. *)
Theorem updateFiles_empty_batch (w : World) :
  run None w = Returned emptyManifest w
  ∧ run (Some []) w = Returned emptyManifest w.
Proof. split; reflexivity. Qed.

(** C7: a file without content (absent or empty) and a file whose path
    resolves to the empty string leave the manifest and the world as they
    were: nothing is written and nothing is recorded, and the loop runs as
    if the file were not in the list. *)
Theorem updateFile_silent_exclusion info allPaths (file : RegistryFile) :
  present (content file) = false
  ∨ resolveFilePath file config (resolveOptions info allPaths file) = [] →
  (∀ m w, step info allPaths file m w = Returned m w)
  ∧ (∀ pre post m w,
       loop info allPaths (pre ++ file :: post) m w
       = loop info allPaths (pre ++ post) m w).
Proof.
  intros Hex.
  assert (Hskip : processed config info allPaths file = false).
  { unfold processed, resolvedOf. destruct Hex as [-> | ->]; [done|].
    apply andb_false_r. }
  split; [intros; by apply updateFile_excluded|]. intros pre post m w.
  rewrite !updateLoop_app. unfold bind.
  destruct (loop info allPaths pre m w) as [m1 w1|]; [|done].
  simpl. unfold bind. by rewrite updateFile_excluded.
Qed.


(** C8: in a run that returns, every input file contributes at most one
    entry, to exactly one of the three lists, and each list keeps the
    order of the input files: there is one optional outcome per file such
    that each list is made of the entries of the files with that outcome,
    in input order. *)
Theorem manifest_invariant (files : list RegistryFile) (w : World)
    (m : Manifest) (w' : World) :
  run (Some files) w = Returned m w' →
  let info := getProjectInfo (fs w) (cwd (resolvedPaths config)) in
  let entries := entryOf processCwd config info (path <$> files) <$> files in
  ∃ outcomes : list (option Kind),
    length outcomes = length files
    ∧ filesCreated m = entriesOf Created (zip outcomes entries)
    ∧ filesUpdated m = entriesOf Updated (zip outcomes entries)
    ∧ filesSkipped m = entriesOf Skipped (zip outcomes entries).
Proof.
  intros Hrun info entries. destruct files as [|file files].
  - injection Hrun as <- <-. by exists [].
  - rewrite updateFiles_unfold in Hrun by done. cbn zeta in Hrun.
    destruct (loop _ _ _ _ _) as [m0 w0|] eqn:Hloop; [|done].
    injection Hrun as <- <-.
    apply updateLoop_record in Hloop as (tags & Hlen & Hc & Hu & Hs & _).
    exists tags. by rewrite Hc, Hu, Hs.
Qed.

(** C2, as the code has it: nothing in [updateFiles] catches a rejection.
    When processing one file fails (the read of the existing file, the
    creation of the directory or the write rejects), the run rejects with
    that error in the world the failing file left: the files before it
    keep their effects, the files after it are not processed, and no
    manifest is returned. *)
Theorem updateFiles_failure_aborts (pre : list RegistryFile)
    (file : RegistryFile) (post : list RegistryFile)
    (w : World) (m1 : Manifest) (w1 : World) (e : Fs.Error) (w2 : World) :
  let dir := cwd (resolvedPaths config) in
  let info := getProjectInfo (fs w) dir in
  let allPaths := path <$> pre ++ file :: post in
  let start :=
    emits [SpinnerStart (str "Updating files.") (silent options);
           GetProjectInfo dir] w in
  loop info allPaths pre emptyManifest start = Returned m1 w1 →
  step info allPaths file m1 w1 = Thrown e w2 →
  run (Some (pre ++ file :: post)) w = Thrown e w2.
Proof.
  intros dir info allPaths start Hpre Hfile.
  rewrite updateFiles_unfold by (by destruct pre). cbn zeta.
  fold dir info allPaths start.
  rewrite updateLoop_app. rewrite (bind_returned _ _ _ _ _ Hpre).
  simpl. by rewrite (bind_thrown _ _ _ _ _ Hfile).
Qed.

End Reconciliation.

(** *** The statements above at sample inputs *)

Lemma commonRoot_irrelevant_witness :
  resolveFilePath Sample.libA Sample.config
    {| optIsSrcDir := Some false; optCommonRoot := Some (str "/tiptap-lib");
       optFramework := Some (str "next-app") |}
  = resolveFilePath Sample.libA Sample.config
      {| optIsSrcDir := Some false; optCommonRoot := None;
         optFramework := Some (str "next-app") |}.
Proof.
  edestruct (commonRoot_irrelevant Sample.transform Sample.confirm (str "/")
               Sample.config Sample.options Sample.libA) as [H _];
    [| | exact H]; reflexivity.
Defined.

Lemma updateFile_silent_exclusion_witness :
  Sample.step Sample.noContent emptyManifest Sample.emptyProject
  = Returned emptyManifest Sample.emptyProject.
Proof.
  edestruct (updateFile_silent_exclusion Sample.transform Sample.confirm
               (str "/") Sample.config Sample.options (Some Sample.info) []
               Sample.noContent) as [H _];
    [left; reflexivity | apply H].
Defined.


Lemma manifest_invariant_witness :
  ∃ outcomes : list (option Kind),
    length outcomes = 2
    ∧ [str "lib/a.ts"] = entriesOf Created (zip outcomes [str "lib/a.ts"; str "lib/a.ts"])
    ∧ [str "lib/a.ts"] = entriesOf Updated (zip outcomes [str "lib/a.ts"; str "lib/a.ts"])
    ∧ [] = entriesOf Skipped (zip outcomes [str "lib/a.ts"; str "lib/a.ts"]).
Proof.
  eapply (manifest_invariant Sample.transform Sample.getProjectInfo
            Sample.confirm (str "/") Sample.config Sample.options
            [Sample.libA; Sample.libA'] Sample.emptyProject
            {| filesCreated := [str "lib/a.ts"];
               filesUpdated := [str "lib/a.ts"];
               filesSkipped := [] |}).
  vm_compute. reflexivity.
Defined.

Lemma updateFiles_failure_aborts_witness :
  ∃ w', Sample.run [Sample.libA; Sample.rootB] Sample.libIsFile
        = Thrown (Fs.ENOTDIR (str "/proj/lib/a.ts")) w'.
Proof.
  eexists.
  eapply (updateFiles_failure_aborts Sample.transform Sample.getProjectInfo
            Sample.confirm (str "/") Sample.config Sample.options
            [] Sample.libA [Sample.rootB] Sample.libIsFile);
    [reflexivity | vm_compute; reflexivity].
Defined.

(** C2 as stated fails: [lib] is a regular file, so the write of
    [lib/a.ts] rejects; the run then rejects as a whole and [b.ts], which a
    run of its own creates, is never written. *)
Lemma write_failure_aborts_batch :
  match Sample.run [Sample.libA; Sample.rootB] Sample.libIsFile with
  | Thrown e w' =>
      e = Fs.ENOTDIR (str "/proj/lib/a.ts")
      ∧ fs w' !! str "/proj/b.ts" = None
  | Returned _ _ => False
  end
  ∧ match Sample.run [Sample.rootB] Sample.libIsFile with
    | Returned m w' =>
        filesCreated m = [str "b.ts"]
        ∧ fs w' !! str "/proj/b.ts" = Some (Fs.File (str "bbb"))
    | Thrown _ _ => False
    end.
Proof. vm_compute. done. Qed.

(** ** The file system *)

Section FsFacts.

Lemma mkdirChain_preserves (requested : list ascii) (dirs : list (list ascii))
    (fs fs' : gmap (list ascii) Fs.Node) (p : list ascii) (node : Fs.Node) :
  Fs.mkdirChain requested fs dirs = inr fs' →
  fs !! p = Some node → fs' !! p = Some node.
Proof.
  revert fs; induction dirs as [|d dirs IH]; intros fs; simpl.
  - by intros [= ->].
  - destruct (Fs.isRoot d || negb (Js.truthy d)); [apply IH|].
    destruct (fs !! d) as [[|]|] eqn:Hd; [done | apply IH |].
    intros Hrest Hp. eapply IH; [done|].
    rewrite lookup_insert_ne; [done|]. intros ->. congruence.
Qed.

Lemma mkdir_preserves (d : list ascii) (fs fs' : gmap (list ascii) Fs.Node)
    (p : list ascii) (node : Fs.Node) :
  Fs.mkdir fs d = inr fs' → fs !! p = Some node → fs' !! p = Some node.
Proof.
  unfold Fs.mkdir. destruct (Fs.valid d); [|done]. apply mkdirChain_preserves.
Qed.

(** A write returns only at a path that Node accepts, that is no root and
    does not end in a slash, and puts the file there. *)
Lemma writeFile_inr (fs fs' : gmap (list ascii) Fs.Node) (p data : list ascii) :
  Fs.writeFile fs p data = inr fs' →
  fs' = <[p := Fs.File data]> fs ∧ Fs.valid p = true ∧ Fs.trailing p = false
  ∧ Fs.isRoot p = false ∧ fs !! p ≠ Some Fs.Dir.
Proof.
  unfold Fs.writeFile. destruct (Fs.valid p) eqn:Hvalid; [|done]. cbn [negb].
  destruct (negb (Js.truthy p)); [done|].
  destruct (Fs.isDirectory fs p) eqn:Hdir; [done|].
  destruct (Fs.trailing p) eqn:Htrail.
  { destruct (fs !! Fs.key p) as [[|]|]; [done|..]; by repeat case_match. }
  unfold Fs.isDirectory in Hdir.
  rewrite Hvalid, (key_plain _ Htrail) in Hdir.
  apply orb_false_iff in Hdir as [Hroot Hnode].
  repeat case_match; try done; intros [= <-]; split_and!; try done;
    intros Hp; by rewrite Hp in Hnode.
Qed.

Lemma writeFile_insert (fs fs' : gmap (list ascii) Fs.Node)
    (p data : list ascii) :
  Fs.writeFile fs p data = inr fs' → fs' = <[p := Fs.File data]> fs.
Proof. by intros (-> & _)%writeFile_inr. Qed.

Lemma readFile_lookup (fs : gmap (list ascii) Fs.Node) (p data : list ascii) :
  Fs.readFile fs p = inr data → fs !! p = Some (Fs.File data).
Proof. by intros (_ & _ & _ & ->)%readFile_inr. Qed.

Lemma readFile_written (fs fs' : gmap (list ascii) Fs.Node)
    (p data : list ascii) :
  Fs.writeFile fs p data = inr fs' → Fs.readFile fs' p = inr data.
Proof.
  intros (-> & Hvalid & Htrail & Hroot & _)%writeFile_inr.
  apply readFile_inr. by rewrite lookup_insert_eq.
Qed.

End FsFacts.

(** ** Two runs in a row *)

Section Idempotence.
Variable transform : list ascii → list ascii → Config → bool → list ascii.
Variable confirm : nat → list ascii → bool.
Variable processCwd : list ascii.
Variables (config : Config) (options : Options).
Variables (info : option ProjectInfo) (allPaths : list (list ascii)).

Local Abbreviation step :=
  (updateFile transform confirm processCwd config options info allPaths).
Local Abbreviation loop :=
  (updateLoop transform confirm processCwd config options info allPaths).
Local Abbreviation filePath := (filePathOf config info allPaths).
Local Abbreviation newContent := (newContentOf transform config).
Local Abbreviation entry := (entryOf processCwd config info allPaths).
Local Abbreviation isProcessed := (processed config info allPaths).

Local Abbreviation current := (upToDate transform config info allPaths).

(** With [overwrite] on, the loop body leaves the file of a processed file
    up to date, and every other regular file as it was. *)
Lemma updateFile_installs file m w m' w' :
  overwrite options = true →
  isProcessed file = true →
  step file m w = Returned m' w' →
  current (fs w') file
  ∧ ∀ p data, fs w !! p = Some (Fs.File data) →
      fs w' !! p = Some (Fs.File data)
      ∨ (p = filePath file ∧ fs w' !! p = Some (Fs.File (newContent file))).
Proof.
  intros Hover [Hc Hres]%andb_true_iff.
  unfold updateFile. fold (resolvedOf config info allPaths file).
  rewrite Hc, Hres, Hover. cbn [negb].
  fold (filePath file) (newContent file) (entry file).
  unfold upToDate, bind, existsSync, readFile, writeAndRecord,
    bind, existsSync, mkdir, writeFile, when, ret, Js.streq.
  cbn [fs emit setFs]. rewrite ?andb_false_r.
  intros H.
  repeat (case_match; simplify_eq); cbn [fs emit setFs] in *;
    repeat match goal with
    | H : bool_decide _ = true |- _ => apply bool_decide_eq_true in H
    end.
  all: split;
    [ first [ eexists; split; [eassumption | eassumption]
            | eexists; split; [eapply readFile_written; eassumption | done] ]
    | repeat match goal with
      | H : Fs.writeFile _ _ _ = inr _ |- _ => apply writeFile_insert in H as ->
      end;
      intros p data Hp;
      first
        [ by left
        | destruct (decide (filePath file = p)) as [<-|Hne];
          [ right; split; [done | apply lookup_insert_eq]
          | left; rewrite lookup_insert_ne by done;
            eauto using mkdir_preserves ] ] ].
Qed.

Lemma updateLoop_installs files : ∀ done m w m' w',
  overwrite options = true →
  (∀ f g, f ∈ done ++ files → g ∈ done ++ files →
     isProcessed f = true → isProcessed g = true →
     filePath f = filePath g →
     getNormalizedFileContent (newContent f)
     = getNormalizedFileContent (newContent g)) →
  (∀ f, f ∈ done → isProcessed f = true → current (fs w) f) →
  loop files m w = Returned m' w' →
  ∀ f, f ∈ done ++ files → isProcessed f = true → current (fs w') f.
Proof.
  induction files as [|file files IH]; intros done m w m' w' Hover Hagree Hinv.
  - simpl. intros [= <- <-]. by rewrite app_nil_r.
  - simpl. intros (m1 & w1 & Hstep & Hrest)%bind_returned_inv.
    replace (done ++ file :: files) with ((done ++ [file]) ++ files) in *
      by (by rewrite <- app_assoc).
    eapply IH; [done | done | | done].
    intros g [Hg | ->%list_elem_of_singleton]%elem_of_app Hpg.
    + destruct (isProcessed file) eqn:Hpf.
      * destruct (updateFile_installs _ _ _ _ _ Hover Hpf Hstep) as [_ Hkeep].
        destruct (Hinv g Hg Hpg) as (e & He & Hnorm).
        apply readFile_inr in He as (Hvalid & Htrail & Hroot & He).
        destruct (Hkeep _ _ He) as [Hsame | [Hpath Hnew]].
        -- exists e. split; [by apply readFile_inr | done].
        -- exists (newContent file). split; [by apply readFile_inr|].
           apply Hagree;
             [ rewrite !elem_of_app, list_elem_of_singleton; auto
             | rewrite !elem_of_app; auto
             | done | done | done ].
      * rewrite updateFile_excluded in Hstep by done.
        injection Hstep as <- <-. by apply Hinv.
    + by destruct (updateFile_installs _ _ _ _ _ Hover Hpg Hstep) as [? _].
Qed.

(** When every processed file is up to date, the loop skips all of them
    and only tests and reads. *)
Lemma updateLoop_all_unchanged files : ∀ m w,
  (∀ f, f ∈ files → isProcessed f = true → current (fs w) f) →
  ∃ evs,
    loop files m w
    = Returned {| filesCreated := filesCreated m;
                  filesUpdated := filesUpdated m;
                  filesSkipped :=
                    filesSkipped m ++ (entry <$> filter (λ f, isProcessed f = true) files) |}
               (emits evs w)
    ∧ Forall (λ ev, isWrite ev = false ∧ isPrompt ev = false) evs.
Proof.
  induction files as [|file files IH]; intros m w Hinv.
  - exists []. simpl. rewrite emits_nil, app_nil_r. by destruct m.
  - simpl. destruct (isProcessed file) eqn:Hp.
    + destruct (Hinv file) as (e & He & Hnorm); [apply list_elem_of_here | done |].
      erewrite bind_returned
        by (eapply updateFile_unchanged; [exact Hp | exact He | exact Hnorm]).
      edestruct (IH (pushSkipped (entry file) m)) as (evs & -> & Hevs).
      { intros f Hf Hpf. cbn [fs emits].
        apply Hinv; [by apply list_elem_of_further | done]. }
      eexists. split.
      * rewrite emits_emits. rewrite filter_cons_True by done.
        cbn [filesCreated filesUpdated filesSkipped pushSkipped fmap list_fmap].
        by rewrite <- app_assoc.
      * apply Forall_app. split; [|done]. by repeat constructor.
    + erewrite bind_returned by (by apply updateFile_excluded).
      rewrite filter_cons_False by (by rewrite Hp).
      apply IH. intros f Hf Hpf.
      apply Hinv; [by apply list_elem_of_further | done].
Qed.

Lemma entriesOf_processed k (tags : list (option Kind)) files e :
  Forall2 (λ k file, k = Some Created ∨ k = Some Updated →
                     isProcessed file = true) tags files →
  k = Created ∨ k = Updated →
  e ∈ entriesOf k (zip tags (entry <$> files)) →
  e ∈ entry <$> filter (λ f, isProcessed f = true) files.
Proof.
  intros Hall Hk. induction Hall as [|k' file tags files Hfile Hall IH]; simpl.
  - by intros ?%elem_of_nil.
  - destruct (isProcessed file) eqn:Hp.
    + rewrite filter_cons_True by done. rewrite fmap_cons.
      destruct k' as [[]|], k; simpl; rewrite ?elem_of_cons;
        first [ intros [?|?]; [by left | right; by apply IH]
              | intros ?; right; by apply IH ].
    + rewrite filter_cons_False by (by rewrite Hp).
      assert (Hk' : ¬ (k' = Some Created ∨ k' = Some Updated)).
      { intros H. discriminate (Hfile H). }
      destruct k' as [[]|], k; cbn [entriesOf]; try exact IH;
        first [ destruct Hk; discriminate | exfalso; apply Hk'; auto ].
Qed.

End Idempotence.

Section TwoRuns.
Variable transform : list ascii → list ascii → Config → bool → list ascii.
Variable getProjectInfo :
  gmap (list ascii) Fs.Node → list ascii → option ProjectInfo.
Variable confirm : nat → list ascii → bool.
Variable processCwd : list ascii.
Variables (config : Config) (options : Options).

Local Abbreviation run :=
  (updateFiles transform getProjectInfo confirm processCwd config options).

Lemma logFiles_quiet entries :
  Forall (λ ev, isWrite ev = false ∧ isPrompt ev = false)
         (logFiles options entries).
Proof.
  unfold logFiles. destruct (silent options); [constructor|].
  apply Forall_fmap, Forall_true. by intros.
Qed.

(** The summary only talks to the spinner and the logger. *)
Lemma summary_quiet m :
  Forall (λ ev, isWrite ev = false ∧ isPrompt ev = false) (summary options m).
Proof.
  unfold summary. repeat (apply Forall_app; split);
    repeat case_match;
    repeat first [ apply Forall_nil_2
                 | apply logFiles_quiet
                 | apply Forall_cons; split; [done|] ].
Qed.

(** C1, as the code has it: with [overwrite] on, when any two files of the
    list that are written to the same path carry the same content up to
    normalization (in particular when the paths are pairwise distinct), and
    project detection gives the same answer after the first run, a second
    run on the world the first run left returns; every entry the first run
    reported as created or updated is reported as skipped; nothing is
    created or updated, the file system is unchanged, and no directory is
    made, no file written and no prompt asked. *)
Theorem updateFiles_idempotent (files : list RegistryFile) (w : World)
    (m1 : Manifest) (w1 : World) :
  let dir := cwd (resolvedPaths config) in
  let info := getProjectInfo (fs w) dir in
  let allPaths := path <$> files in
  overwrite options = true →
  (∀ f g, f ∈ files → g ∈ files →
     processed config info allPaths f = true →
     processed config info allPaths g = true →
     filePathOf config info allPaths f = filePathOf config info allPaths g →
     getNormalizedFileContent (newContentOf transform config f)
     = getNormalizedFileContent (newContentOf transform config g)) →
  run (Some files) w = Returned m1 w1 →
  getProjectInfo (fs w1) dir = info →
  ∃ m2 w2 evs,
    run (Some files) w1 = Returned m2 w2
    ∧ (∀ e, e ∈ filesCreated m1 ++ filesUpdated m1 → e ∈ filesSkipped m2)
    ∧ filesCreated m2 = [] ∧ filesUpdated m2 = []
    ∧ fs w2 = fs w1
    ∧ trace w2 = trace w1 ++ evs
    ∧ Forall (λ ev, isWrite ev = false ∧ isPrompt ev = false) evs.
Proof.
  intros dir info allPaths Hover Hagree Hrun Hinfo.
  destruct (decide (files = [])) as [-> | Hne].
  { injection Hrun as <- <-. exists emptyManifest, w, [].
    split_and!; try done; first [by intros e ?%elem_of_nil | by rewrite app_nil_r]. }
  rewrite updateFiles_unfold in Hrun by done. cbn zeta in Hrun.
  fold dir info allPaths in Hrun.
  destruct (updateLoop _ _ _ _ _ _ _ _ _ _) as [m0 w0|] eqn:Hloop; [|done].
  injection Hrun as <- <-.
  assert (Hinv : ∀ f, f ∈ files → processed config info allPaths f = true →
                      upToDate transform config info allPaths (fs w0) f).
  { eapply (updateLoop_installs transform confirm processCwd config options
              info allPaths files [] _ _ _ _ Hover Hagree); [|exact Hloop].
    by intros f ?%elem_of_nil. }
  rewrite updateFiles_unfold by done. cbn zeta. fold dir.
  cbn [fs emits] in Hinfo |- *. rewrite Hinfo. fold allPaths.
  edestruct (updateLoop_all_unchanged transform confirm processCwd config
               options info allPaths files emptyManifest)
    as (evs & -> & Hevs); [exact Hinv|].
  apply updateLoop_record in Hloop
    as (tags & _ & Hcreated & Hupdated & _ & Hall).
  eexists _, _,
    ([SpinnerStart (str "Updating files.") (silent options);
      GetProjectInfo dir] ++ evs ++ summary options _).
  split; [reflexivity|].
  cbn [filesCreated filesUpdated filesSkipped emptyManifest app fs trace emits].
  split_and!; [| done | done | done | by rewrite <- !app_assoc | ].
  all: cbn [app].
  - rewrite Hcreated, Hupdated. cbn [emptyManifest filesCreated filesUpdated app].
    intros e [He|He]%elem_of_app.
    + eapply entriesOf_processed with (k := Created); [exact Hall | by left | exact He].
    + eapply entriesOf_processed with (k := Updated); [exact Hall | by right | exact He].
  - do 2 (apply Forall_cons; split; [done|]).
    apply Forall_app. split; [done | apply summary_quiet].
Qed.

End TwoRuns.

Lemma updateFiles_idempotent_witness :
  ∃ m1 w1 m2 w2,
    Sample.run [Sample.libA; Sample.rootB] Sample.emptyProject = Returned m1 w1
    ∧ Sample.run [Sample.libA; Sample.rootB] w1 = Returned m2 w2
    ∧ (∀ e, e ∈ filesCreated m1 ++ filesUpdated m1 → e ∈ filesSkipped m2)
    ∧ fs w2 = fs w1.
Proof.
  eassert (Hrun : Sample.run [Sample.libA; Sample.rootB] Sample.emptyProject
                  = Returned _ _) by (vm_compute; reflexivity).
  assert (Hagree : ∀ f g,
    f ∈ [Sample.libA; Sample.rootB] → g ∈ [Sample.libA; Sample.rootB] →
    processed Sample.config (Some Sample.info)
      (path <$> [Sample.libA; Sample.rootB]) f = true →
    processed Sample.config (Some Sample.info)
      (path <$> [Sample.libA; Sample.rootB]) g = true →
    filePathOf Sample.config (Some Sample.info)
      (path <$> [Sample.libA; Sample.rootB]) f
    = filePathOf Sample.config (Some Sample.info)
        (path <$> [Sample.libA; Sample.rootB]) g →
    getNormalizedFileContent (newContentOf Sample.transform Sample.config f)
    = getNormalizedFileContent (newContentOf Sample.transform Sample.config g)).
  { intros f g Hf Hg _ _.
    apply list_elem_of_In in Hf, Hg. simpl in Hf, Hg.
    destruct Hf as [<-|[<-|[]]], Hg as [<-|[<-|[]]];
      first [ reflexivity
            | intros Hpath; vm_compute in Hpath; discriminate Hpath ]. }
  destruct (updateFiles_idempotent Sample.transform Sample.getProjectInfo
              Sample.confirm (str "/") Sample.config Sample.options
              [Sample.libA; Sample.rootB] Sample.emptyProject _ _
              eq_refl Hagree Hrun eq_refl)
    as (m2 & w2 & evs & Hsecond & Hskipped & _ & _ & Hfs & _).
  eexists _, _, m2, w2.
  split_and!; [exact Hrun | exact Hsecond | exact Hskipped | exact Hfs].
Defined.

(** C1 as stated, for every file list, fails: two files written to the same
    path with different contents overwrite each other in every run, so the
    path the first run reported as created (and as updated) is updated
    twice, never skipped, by the second run. *)
Lemma same_target_not_idempotent :
  match Sample.run [Sample.libA; Sample.libA'] Sample.emptyProject with
  | Returned m1 w1 =>
      filesCreated m1 = [str "lib/a.ts"]
      ∧ filesUpdated m1 = [str "lib/a.ts"]
      ∧ match Sample.run [Sample.libA; Sample.libA'] w1 with
        | Returned m2 w2 =>
            filesSkipped m2 = []
            ∧ filesUpdated m2 = [str "lib/a.ts"; str "lib/a.ts"]
        | Thrown _ _ => False
        end
  | Thrown _ _ => False
  end.
Proof. vm_compute. done. Qed.

(** ** Splitting and joining *)

Section SplitJoin.
Import Js.
Variable sep : ascii.

Lemma split_nonempty s : split sep s ≠ [].
Proof.
  destruct s as [|c s]; simpl; [done|].
  destruct (Ascii.eqb c sep); [done|]. by destruct (split sep s).
Qed.

Lemma split_length_pos s : 1 ≤ length (split sep s).
Proof.
  pose proof (split_nonempty s). destruct (split sep s); simpl; [done | lia].
Qed.

Lemma split_app a b : split sep (a ++ sep :: b) = split sep a ++ split sep b.
Proof.
  induction a as [|c a IH]; simpl.
  - by rewrite Ascii.eqb_refl.
  - destruct (Ascii.eqb c sep); [by rewrite IH|].
    rewrite IH. pose proof (split_nonempty a).
    by destruct (split sep a).
Qed.

Lemma split_no_sep s : sep ∉ s → split sep s = [s].
Proof.
  induction s as [|c s IH]; [done|]. intros Hc. simpl.
  apply not_elem_of_cons in Hc as [Hne Hs].
  destruct (Ascii.eqb_spec c sep) as [->|_]; [done|]. by rewrite IH.
Qed.

Lemma join_cons x y rest :
  join [sep] (x :: y :: rest) = x ++ sep :: join [sep] (y :: rest).
Proof. reflexivity. Qed.

Lemma join_split s : join [sep] (split sep s) = s.
Proof.
  induction s as [|c s IH]; [done|]. cbn [split].
  pose proof (split_nonempty s) as Hne.
  destruct (Ascii.eqb_spec c sep) as [->|_],
           (split sep s) as [|y rest]; try done.
  - rewrite join_cons. cbn [app]. by rewrite IH.
  - destruct rest as [|z rest].
    + cbn [join] in *. by rewrite IH.
    + rewrite join_cons in *. cbn [app]. by rewrite IH.
Qed.

Lemma join_app l1 l2 :
  l1 ≠ [] → l2 ≠ [] →
  join [sep] (l1 ++ l2) = join [sep] l1 ++ sep :: join [sep] l2.
Proof.
  intros H1 H2. induction l1 as [|x l1 IH]; [done|].
  destruct l1 as [|y l1].
  - destruct l2; [done|]. reflexivity.
  - rewrite <- app_comm_cons. simpl app at 1.
    rewrite !join_cons, <- app_assoc. simpl. f_equal. f_equal.
    by apply IH.
Qed.

Lemma dropLast_snoc {A} (l : list A) x : dropLast (l ++ [x]) = l.
Proof.
  unfold dropLast. rewrite length_app. simpl.
  replace (length l + 1 - 1) with (length l) by lia.
  by rewrite take_app_length.
Qed.

Lemma join_take_prefix (segs : list (list ascii)) i j :
  1 ≤ i → i ≤ j →
  join [sep] (take i segs) `prefix_of` join [sep] (take j segs).
Proof.
  intros Hi Hij.
  destruct (decide (length segs ≤ i)) as [Hlen|Hlen].
  { by rewrite !take_ge by lia. }
  destruct (decide (i = j)) as [->|Hne]; [done|].
  replace (take j segs) with (take i segs ++ drop i (take j segs)).
  2:{ assert (take i segs = take i (take j segs)) as ->
        by (rewrite take_take; f_equal; lia).
      apply take_drop. }
  rewrite join_app.
  - by eexists.
  - intros Hnil%(f_equal length). rewrite length_take in Hnil. simpl in Hnil. lia.
  - intros Hnil%(f_equal length).
    rewrite length_drop, length_take in Hnil. simpl in Hnil. lia.
Qed.

End SplitJoin.

(** The joined prefixes of the segments of [d] are the segment prefixes of
    [d]. *)
Lemma join_take_segmentPrefix d i :
  1 ≤ i ≤ length (Js.split Js.slash d) →
  segmentPrefix (Js.join [Js.slash] (take i (Js.split Js.slash d))) d.
Proof.
  intros [Hi Hn].
  destruct (decide (i = length (Js.split Js.slash d))) as [->|Hlt].
  - left. by rewrite firstn_all, join_split.
  - right. exists (Js.join [Js.slash] (drop i (Js.split Js.slash d))).
    rewrite <- (join_split Js.slash d) at 1.
    rewrite <- (take_drop i (Js.split Js.slash d)) at 1.
    apply join_app.
    + intros Hnil%(f_equal length). rewrite length_take in Hnil. simpl in Hnil. lia.
    + intros Hnil%(f_equal length). rewrite length_drop in Hnil. simpl in Hnil. lia.
Qed.

Lemma segmentPrefix_join_take p d :
  segmentPrefix p d →
  ∃ i, 1 ≤ i ≤ length (Js.split Js.slash d)
       ∧ p = Js.join [Js.slash] (take i (Js.split Js.slash d)).
Proof.
  intros [-> | [rest ->]].
  - exists (length (Js.split Js.slash d)). split; [split; [apply split_length_pos|done]|].
    by rewrite firstn_all, join_split.
  - exists (length (Js.split Js.slash p)). rewrite split_app, length_app.
    split; [split; [apply split_length_pos | lia]|].
    by rewrite take_app_length, join_split.
Qed.


(** ** Common root *)

Section CommonRoot.
Variables (paths : list (list ascii)) (needle : list ascii).

Local Abbreviation related :=
  (hasRelatedPaths (Js.stripLeadingSlash <$> paths) (Js.stripLeadingSlash needle)).

Lemma hasRelatedPaths_shared p :
  related p = true ↔ sharedWithSibling paths needle p.
Proof.
  unfold hasRelatedPaths, sharedWithSibling. rewrite existsb_exists. split.
  - intros (q & Hq & Htest). apply list_elem_of_In, list_elem_of_fmap in Hq
      as (other & -> & Hother).
    apply andb_true_iff in Htest as [Hne Hpre].
    exists other. split_and!; [done | | by apply startsWith_prefix].
    unfold Js.streq in Hne. by case_bool_decide.
  - intros (other & Hother & Hne & Hpre).
    exists (Js.stripLeadingSlash other). split.
    + apply list_elem_of_In, list_elem_of_fmap. eauto.
    + apply andb_true_iff. split; [|by apply startsWith_prefix].
      unfold Js.streq. by rewrite bool_decide_false.
Qed.

Variable segs : list (list ascii).

Local Abbreviation candidate := (λ i, Js.join [Js.slash] (take i segs)).
Local Abbreviation search :=
  (commonRootLoop (Js.stripLeadingSlash <$> paths)
                  (Js.stripLeadingSlash needle) segs).

(** The loop returns the first candidate, from the longest down, that a
    sibling shares. *)
Lemma commonRootLoop_found i root :
  search i = Some root →
  ∃ j, 1 ≤ j ≤ i ∧ root = Js.slash :: candidate j ∧ related (candidate j) = true
       ∧ ∀ k, j < k ≤ i → related (candidate k) = false.
Proof.
  induction i as [|i IH]; [done|]. cbn [commonRootLoop].
  destruct (related (candidate (S i))) eqn:Hrel.
  - intros [= <-]. exists (S i). split_and!; [lia | lia | done | done | lia].
  - intros (j & Hj & -> & Hrelj & Hlater)%IH.
    exists j. split_and!; [lia | lia | done | done |].
    intros k Hk. destruct (decide (k = S i)) as [->|]; [done|].
    apply Hlater. lia.
Qed.

Lemma commonRootLoop_none i :
  search i = None → ∀ k, 1 ≤ k ≤ i → related (candidate k) = false.
Proof.
  induction i as [|i IH]; [intros; lia|]. cbn [commonRootLoop].
  destruct (related (candidate (S i))) eqn:Hrel; [done|].
  intros Hnone k Hk. destruct (decide (k = S i)) as [->|]; [done|].
  apply IH; [done | lia].
Qed.

End CommonRoot.

Lemma findCommonRoot_unfold paths needle d f :
  Js.stripLeadingSlash needle = d ++ Js.slash :: f → Js.slash ∉ f →
  findCommonRoot paths needle
  = if negb (Js.truthy d) then []
    else match commonRootLoop (Js.stripLeadingSlash <$> paths)
                 (Js.stripLeadingSlash needle) (Js.split Js.slash d)
                 (length (Js.split Js.slash d)) with
         | Some root => root
         | None => Js.slash :: d
         end.
Proof.
  intros Hname Hf.
  assert (Hdir : Js.join [Js.slash]
                   (Js.dropLast (Js.split Js.slash (Js.stripLeadingSlash needle)))
                 = d).
  { by rewrite Hname, split_app, (split_no_sep _ f Hf), dropLast_snoc,
      join_split. }
  unfold findCommonRoot. cbv zeta. by rewrite !Hdir.
Qed.

(** C4: [findCommonRoot] returns, behind a leading slash, the longest
    prefix of the directory segments of the needle that another path of the
    list continues with a [/]; the empty string when the needle has no
    directory; and the whole directory of the needle when no other path
    shares any prefix, in particular for a list made of the needle alone. *)
Theorem findCommonRoot_longest_shared_prefix
    (paths : list (list ascii)) (needle : list ascii) :
  let name := Js.stripLeadingSlash needle in
  (∀ f, Js.slash ∉ f → name = f ∨ name = Js.slash :: f →
        findCommonRoot paths needle = [])
  ∧ (∀ d f, name = d ++ Js.slash :: f → Js.slash ∉ f → d ≠ [] →
       (∀ p, segmentPrefix p d → sharedWithSibling paths needle p →
             (∀ q, segmentPrefix q d → sharedWithSibling paths needle q →
                   length q ≤ length p) →
             findCommonRoot paths needle = Js.slash :: p)
       ∧ ((∀ q, segmentPrefix q d → ¬ sharedWithSibling paths needle q) →
          findCommonRoot paths needle = Js.slash :: d)
       ∧ (paths = [needle] → findCommonRoot paths needle = Js.slash :: d)).
Proof.
  intros name. split.
  - intros f Hf [Hname | Hname].
    + unfold findCommonRoot. fold name. rewrite Hname, (split_no_sep _ f Hf).
      reflexivity.
    + by rewrite (findCommonRoot_unfold paths needle [] f Hname Hf).
  - intros d f Hname Hf Hd.
    rewrite (findCommonRoot_unfold paths needle d f Hname Hf).
    apply truthy_true in Hd as ->. cbn [negb].
    assert (Hfallback :
      (∀ q, segmentPrefix q d → ¬ sharedWithSibling paths needle q) →
      match commonRootLoop (Js.stripLeadingSlash <$> paths)
              (Js.stripLeadingSlash needle) (Js.split Js.slash d)
              (length (Js.split Js.slash d)) with
      | Some root => root
      | None => Js.slash :: d
      end = Js.slash :: d).
    { intros Hnone. destruct (commonRootLoop _ _ _ _) as [root|] eqn:Hloop; [|done].
      apply commonRootLoop_found in Hloop as (j & Hj & -> & Hrel & _).
      apply hasRelatedPaths_shared in Hrel.
      destruct (Hnone _ (join_take_segmentPrefix d j Hj) Hrel). }
    split_and!; [|done|].
    + intros p Hp Hshared Hmax.
      destruct (segmentPrefix_join_take p d Hp) as (i & Hi & ->).
      destruct (commonRootLoop _ _ _ _) as [root|] eqn:Hloop.
      * apply commonRootLoop_found in Hloop as (j & Hj & -> & Hrel & Hlater).
        f_equal. symmetry.
        assert (Hij : i ≤ j).
        { destruct (decide (i ≤ j)); [done|].
          apply hasRelatedPaths_shared in Hshared.
          rewrite Hlater in Hshared by lia. done. }
        apply prefix_length_eq; [apply join_take_prefix; lia|].
        apply Hmax; [by apply join_take_segmentPrefix|].
        by apply hasRelatedPaths_shared.
      * apply hasRelatedPaths_shared in Hshared.
        rewrite (commonRootLoop_none _ _ _ _ Hloop) in Hshared by done. done.
    + intros ->. apply Hfallback. intros q _ (other & Hin & Hne & _).
      apply list_elem_of_singleton in Hin as ->. done.
Qed.

Lemma findCommonRoot_longest_shared_prefix_witness :
  findCommonRoot [str "/a/b/c.ts"; str "a/b/d/e.ts"; str "a/x.ts"]
                 (str "a/b/d/e.ts")
  = str "/a/b".
Proof.
  edestruct (findCommonRoot_longest_shared_prefix
               [str "/a/b/c.ts"; str "a/b/d/e.ts"; str "a/x.ts"]
               (str "a/b/d/e.ts")) as [_ H].
  edestruct (H (str "a/b/d") (str "e.ts")) as [Hlongest _];
    [reflexivity | | done |].
  { intros Hin. apply list_elem_of_In in Hin. simpl in Hin.
    repeat (destruct Hin as [Hin|Hin]; [discriminate Hin|]). done. }
  apply (Hlongest (str "a/b")).
  - right. by exists (str "d").
  - exists (str "/a/b/c.ts"). split_and!;
      [apply list_elem_of_here | done | by exists (str "c.ts")].
  - intros q Hq (other & Hin & Hne & [k Hk]).
    destruct (segmentPrefix_join_take q _ Hq) as (i & [Hi1 Hi2] & ->).
    change (length (Js.split Js.slash (str "a/b/d"))) with 3 in Hi2.
    destruct i as [|[|[|[|i]]]]; [lia | vm_compute; lia | vm_compute; lia | | lia].
    apply list_elem_of_In in Hin. simpl in Hin.
    destruct Hin as [<-|[<-|[<-|[]]]];
      [discriminate Hk | done | discriminate Hk].
Defined.

(** ** Explicit targets *)

Section ExplicitTarget.

Lemma cut_leading pat s :
  Js.startsWith pat s = true → Js.cut pat s = Some ([], drop (length pat) s).
Proof. intros H. destruct s; simpl; by rewrite H. Qed.

Lemma replaceFirst_leading pat s :
  Js.startsWith pat s = true → Js.replaceFirst pat [] s = drop (length pat) s.
Proof. intros H. unfold Js.replaceFirst. by rewrite cut_leading. Qed.

Lemma replaceFirst_absent pat rep s :
  Js.includes pat s = false → Js.replaceFirst pat rep s = s.
Proof.
  unfold Js.includes, Js.replaceFirst. by destruct (Js.cut pat s) as [[]|].
Qed.

(** When ["src/"] occurs in the target at its start only, or not at all,
    replacing ["src/"] by the empty string removes the leading one. *)
Lemma replaceFirst_src target :
  Js.includes (str "src/") target = false
  ∨ Js.startsWith (str "src/") target = true →
  Js.replaceFirst (str "src/") [] target = stripLeadingSrc target.
Proof.
  unfold stripLeadingSrc. intros [Habsent | Hlead].
  - rewrite replaceFirst_absent by done.
    destruct (Js.startsWith _ _) eqn:Hlead; [|done].
    unfold Js.includes in Habsent. by rewrite cut_leading in Habsent.
  - by rewrite Hlead, replaceFirst_leading.
Qed.

(** X26: where the code and the rule for explicit targets agree.  A file
    with an explicit target that does not start with [~/], that the
    template-data rule does not catch (its path has no [tiptap-templates/]
    or its target no [/data/]), and in whose target (for a page, the
    rewritten route target, which must not be empty) ["src/"] occurs at the
    start only, or not at all, resolves to [cwd/src] joined with the target
    without its leading ["src/"] when the project has a src directory, and
    to [cwd] joined with it otherwise. *)
Theorem resolveFilePath_explicit_target (file : RegistryFile) (config : Config)
    (options : ResolveOptions) (fileTarget : list ascii) :
  let target' :=
    if Js.streq (type file) (str "registry:page")
    then resolvePageTarget fileTarget (optFramework options)
    else fileTarget in
  target file = Some fileTarget →
  fileTarget ≠ [] →
  Js.startsWith (str "~/") fileTarget = false →
  Js.includes templatesPrefix (path file) = false
  ∨ Js.includes (str "/data/") fileTarget = false →
  target' ≠ [] →
  Js.includes (str "src/") target' = false
  ∨ Js.startsWith (str "src/") target' = true →
  resolveFilePath file config options
  = if default false (optIsSrcDir options)
    then Path.join [cwd (resolvedPaths config); str "src"; stripLeadingSrc target']
    else Path.join [cwd (resolvedPaths config); stripLeadingSrc target'].
Proof.
  intros target' Htarget Hne%truthy_true Htilde Hdata Hne'%truthy_true Hsrc.
  unfold resolveFilePath, templateFileRule, templateDataRule, present.
  rewrite Htarget. cbn [default from_option id]. rewrite Hne. cbn [negb andb].
  assert (Js.includes templatesPrefix (path file)
          && Js.includes (str "/data/") fileTarget = false) as ->.
  { destruct Hdata as [-> | ->]; [done | apply andb_false_r]. }
  unfold explicitTargetRule. rewrite Htilde. fold target'.
  rewrite Hne'. cbn [negb]. by rewrite replaceFirst_src.
Qed.

End ExplicitTarget.

Lemma resolveFilePath_explicit_target_witness :
  resolveFilePath (Sample.file "tiptap-lib/a.ts" "registry:lib"
                     (Some "src/lib/src/a.ts") "x")
    Sample.config
    {| optIsSrcDir := Some true; optCommonRoot := None; optFramework := None |}
  = str "/proj/src/lib/src/a.ts".
Proof.
  apply (resolveFilePath_explicit_target
           (Sample.file "tiptap-lib/a.ts" "registry:lib"
              (Some "src/lib/src/a.ts") "x")
           Sample.config
           {| optIsSrcDir := Some true; optCommonRoot := None;
              optFramework := None |}
           (str "src/lib/src/a.ts"));
    [reflexivity | done | reflexivity | left; reflexivity | done
    | right; reflexivity].
Defined.

(** C5: the code breaks the rule at the target [lib/mysrc/a.ts].  Only a
    leading ["src/"] is to be stripped, which leaves this target as it is:
    [cwd/lib/mysrc/a.ts], and [cwd/src/lib/mysrc/a.ts] in a project with a
    src directory.  The code replaces the first ["src/"] wherever it is,
    here inside [mysrc/], and returns [cwd/lib/mya.ts] and
    [cwd/src/lib/mya.ts]. *)
Theorem resolveFilePath_inner_src_removed :
  let nested :=
    Sample.file "tiptap-lib/a.ts" "registry:lib" (Some "lib/mysrc/a.ts") "x" in
  let options srcDir :=
    {| optIsSrcDir := Some srcDir; optCommonRoot := None;
       optFramework := None |} in
  stripLeadingSrc (str "lib/mysrc/a.ts") = str "lib/mysrc/a.ts"
  ∧ resolveFilePath nested Sample.config (options false)
    = str "/proj/lib/mya.ts"
  ∧ Path.join [str "/proj"; stripLeadingSrc (str "lib/mysrc/a.ts")]
    = str "/proj/lib/mysrc/a.ts"
  ∧ resolveFilePath nested Sample.config (options true)
    = str "/proj/src/lib/mya.ts"
  ∧ Path.join [str "/proj"; str "src"; stripLeadingSrc (str "lib/mysrc/a.ts")]
    = str "/proj/src/lib/mysrc/a.ts".
Proof. vm_compute. by split_and!. Qed.

(** * Further properties of update-files.ts *)

(** ** Segments *)

Section Segments.
Import Js.

Lemma split_segments_no_sep sep s : Forall (λ seg, sep ∉ seg) (split sep s).
Proof.
  induction s as [|c s IH]; simpl.
  - repeat constructor. by intros ?%elem_of_nil.
  - destruct (Ascii.eqb_spec c sep) as [->|Hne].
    + constructor; [by intros ?%elem_of_nil | done].
    + destruct (split sep s) as [|seg segs]; [repeat constructor|].
      * intros [?|?%elem_of_nil]%elem_of_cons; done.
      * apply Forall_cons in IH as [Hseg Hsegs]. constructor; [|done].
        intros [?|?]%elem_of_cons; [by apply Hne | done].
Qed.

Lemma stripLeadingSlash_no_slash s :
  head s ≠ Some slash → stripLeadingSlash s = s.
Proof.
  destruct s as [|c s]; [done|]. simpl. intros Hc.
  destruct (Ascii.eqb_spec c slash) as [->|]; [done | done].
Qed.

Lemma stripTrailingSlash_app a b :
  b ≠ [] → stripTrailingSlash (a ++ b) = a ++ stripTrailingSlash b.
Proof.
  intros Hb. unfold stripTrailingSlash. rewrite reverse_app.
  destruct (reverse b) as [|c r] eqn:Hr.
  { apply (f_equal reverse) in Hr. rewrite reverse_involutive in Hr. done. }
  simpl. destruct (Ascii.eqb c slash).
  - by rewrite reverse_app, reverse_involutive.
  - change (c :: r ++ reverse a) with ((c :: r) ++ reverse a).
    by rewrite reverse_app, reverse_involutive.
Qed.

Lemma stripTrailingSlash_no_slash s : slash ∉ s → stripTrailingSlash s = s.
Proof.
  intros Hs. unfold stripTrailingSlash.
  rewrite stripLeadingSlash_no_slash; [apply reverse_involutive|].
  destruct (reverse s) as [|c r] eqn:Hr; [done|]. simpl. intros [= ->].
  apply Hs. apply elem_of_reverse. rewrite Hr. apply list_elem_of_here.
Qed.

Lemma head_no_slash name rest :
  name ≠ [] → slash ∉ name → head (name ++ rest) ≠ Some slash.
Proof.
  destruct name as [|c name]; [done|]. intros _ Hc [= ->].
  apply Hc, list_elem_of_here.
Qed.

End Segments.

(** ** Default placement *)

Lemma nested_under_base (base name tail : list ascii) :
  name ≠ [] → Js.slash ∉ name →
  resolveNestedFilePath (name ++ Js.slash :: tail) (base ++ Js.slash :: name)
  = Js.stripTrailingSlash tail.
Proof.
  intros Hname Hslash. unfold resolveNestedFilePath.
  assert (Htarget : last (Js.split Js.slash (Js.stripTrailingSlash
            (Js.stripLeadingSlash (base ++ Js.slash :: name)))) = Some name).
  { assert (∃ b, Js.stripLeadingSlash (base ++ Js.slash :: name)
                 = b ++ name ∧ (b = [] ∨ ∃ b', b = b' ++ [Js.slash]))
      as (b & -> & Hb).
    { destruct base as [|c base]; simpl.
      - exists []. by split; [|left].
      - destruct (Ascii.eqb c Js.slash).
        + exists (base ++ [Js.slash]). rewrite <- app_assoc. eauto.
        + exists (c :: base ++ [Js.slash]). simpl. rewrite <- app_assoc.
          split; [done|]. right. by exists (c :: base). }
    rewrite stripTrailingSlash_app, stripTrailingSlash_no_slash by done.
    destruct Hb as [-> | [b' ->]]; simpl.
    - by rewrite split_no_sep.
    - rewrite <- app_assoc. simpl.
      rewrite split_app, (split_no_sep _ name) by done. apply last_snoc. }
  rewrite Htarget. cbn [default from_option id].
  rewrite (stripLeadingSlash_no_slash (name ++ _)) by by apply head_no_slash.
  destruct tail as [|c tail].
  - replace (Js.stripTrailingSlash (name ++ [Js.slash])) with name.
    2:{ by rewrite stripTrailingSlash_app, app_nil_r. }
    rewrite split_no_sep by done. simpl.
    unfold Js.streq. by rewrite bool_decide_true.
  - assert (Js.stripTrailingSlash (name ++ Js.slash :: c :: tail)
            = name ++ Js.slash :: Js.stripTrailingSlash (c :: tail)) as ->.
    { rewrite (stripTrailingSlash_app name) by done. f_equal.
      by apply (stripTrailingSlash_app [Js.slash] (c :: tail)). }
    rewrite split_app, (split_no_sep _ name) by done. simpl.
    unfold Js.streq. rewrite bool_decide_true by done. simpl.
    apply join_split.
Qed.

Lemma findIndex_none {A} (p : A → bool) (l : list A) :
  (∀ x, x ∈ l → p x = false) → findIndex p l = None.
Proof.
  induction l as [|x l IH]; [done|]. intros Hall. simpl.
  rewrite (Hall x) by apply list_elem_of_here.
  rewrite IH; [done|]. intros y Hy. by apply Hall, list_elem_of_further.
Qed.

(** The last segment of a string has no slash and ends the string, behind a
    slash if anything comes before it. *)
Lemma split_last sep s :
  ∃ segs seg, Js.split sep s = segs ++ [seg] ∧ (sep ∉ seg)
    ∧ (s = seg ∨ ∃ dir, s = dir ++ sep :: seg).
Proof.
  pose proof (split_nonempty sep s) as Hne.
  pose proof (split_segments_no_sep sep s) as Hno.
  pose proof (join_split sep s) as Hjoin.
  destruct (Js.split sep s) as [|x l] using rev_ind; [done|]. clear IHl.
  exists l, x. apply Forall_app in Hno as [_ [Hx _]%Forall_cons].
  split_and!; [done | done |].
  destruct l as [|y l]; [by left|]. right.
  exists (Js.join [sep] (y :: l)). rewrite <- Hjoin. by apply join_app.
Qed.

(** X1: a file path that starts with the last segment of the target
    directory is placed by what follows that segment: the nested path is the
    rest of the file path, without a trailing slash. *)
Theorem resolveNestedFilePath_under_base (base name tail : list ascii) :
  name ≠ [] → Js.slash ∉ name →
  resolveNestedFilePath (name ++ Js.slash :: tail) (base ++ Js.slash :: name)
  = Js.stripTrailingSlash tail.
Proof. apply nested_under_base. Qed.

Lemma resolveNestedFilePath_under_base_witness :
  resolveNestedFilePath
    (str "tiptap-ui/blockquote-button/blockquote-button.tsx")
    (str "/proj/src/components/tiptap-ui")
  = str "blockquote-button/blockquote-button.tsx".
Proof.
  apply (resolveNestedFilePath_under_base (str "/proj/src/components")
           (str "tiptap-ui") (str "blockquote-button/blockquote-button.tsx")).
  - done.
  - intros Hin. apply list_elem_of_In in Hin. simpl in Hin.
    repeat (destruct Hin as [Hin|Hin]; [discriminate Hin|]). done.
Defined.

(** X2: when no segment of the file path is the last segment of the target
    directory, the file is flattened into the directory: the nested path is
    the last segment of the file path, a name without any slash. *)
Theorem resolveNestedFilePath_flatten (filePath targetDir : list ascii) :
  let file' := Js.stripTrailingSlash (Js.stripLeadingSlash filePath) in
  let dirName :=
    default [] (last (Js.split Js.slash
      (Js.stripTrailingSlash (Js.stripLeadingSlash targetDir)))) in
  dirName ∉ Js.split Js.slash file' →
  let nested := resolveNestedFilePath filePath targetDir in
  (Js.slash ∉ nested)
  ∧ (file' = nested ∨ ∃ dir, file' = dir ++ Js.slash :: nested).
Proof.
  intros file' dirName Hnot nested. unfold nested, resolveNestedFilePath.
  fold file' dirName. rewrite findIndex_none.
  - destruct (split_last Js.slash file') as (segs & seg & -> & Hseg & Hfile).
    rewrite last_snoc. done.
  - intros seg Hseg. unfold Js.streq. apply bool_decide_eq_false.
    by intros ->.
Qed.

Lemma resolveNestedFilePath_flatten_witness :
  Js.slash ∉ resolveNestedFilePath (str "hooks/use-thing.ts") (str "/proj/src/lib").
Proof.
  apply (resolveNestedFilePath_flatten (str "hooks/use-thing.ts")
           (str "/proj/src/lib")).
  vm_compute. intros Hin. apply list_elem_of_In in Hin. simpl in Hin.
  repeat (destruct Hin as [Hin|Hin]; [discriminate Hin|]). done.
Defined.

(** X3: a file without target that no template rule takes, and whose path
    starts with the last segment of the directory of its kind, resolves to
    that directory joined with the rest of its path, whatever the options
    (src directory, framework, common root). *)
Theorem resolveFilePath_default_placement (file : RegistryFile)
    (config : Config) (options : ResolveOptions) (base name tail : list ascii) :
  present (target file) = false →
  Js.includes templatesPrefix (path file) = false
  ∨ type file = str "registry:page" →
  path file = name ++ Js.slash :: tail →
  name ≠ [] → Js.slash ∉ name →
  resolveFileTargetDirectory file config None = base ++ Js.slash :: name →
  resolveFilePath file config options
  = Path.join [base ++ Js.slash :: name; Js.stripTrailingSlash tail].
Proof.
  intros Htarget Hrule Hpath Hname Hslash Hdir.
  unfold resolveFilePath, templateFileRule, templateDataRule.
  rewrite Htarget. cbn [negb andb].
  assert (Js.includes templatesPrefix (path file)
          && negb (Js.streq (type file) (str "registry:page")) = false) as ->.
  { destruct Hrule as [-> | ->]; [done|]. apply andb_false_r. }
  rewrite Hdir, Hpath. by rewrite nested_under_base.
Qed.

Lemma resolveFilePath_default_placement_witness :
  resolveFilePath
    (Sample.file "tiptap-ui/blockquote-button/blockquote-button.tsx"
       "registry:ui" None "x")
    Sample.config
    {| optIsSrcDir := Some true; optCommonRoot := None; optFramework := None |}
  = str "/proj/src/components/tiptap-ui/blockquote-button/blockquote-button.tsx".
Proof.
  apply (resolveFilePath_default_placement
           (Sample.file "tiptap-ui/blockquote-button/blockquote-button.tsx"
              "registry:ui" None "x")
           Sample.config _ (str "/proj/src/components") (str "tiptap-ui")
           (str "blockquote-button/blockquote-button.tsx"));
    [reflexivity | left; reflexivity | reflexivity | done | | reflexivity].
  intros Hin. apply list_elem_of_In in Hin. simpl in Hin.
  repeat (destruct Hin as [Hin|Hin]; [discriminate Hin|]). done.
Defined.

(** X4: without an override, the target directory of a file is always one
    of the base directories of the configuration, never [cwd] or a made-up
    one; a type without an entry of its own goes to the components
    directory; and a non-empty override always wins. *)
Theorem resolveFileTargetDirectory_closed (file : RegistryFile)
    (config : Config) :
  resolveFileTargetDirectory file config None ∈ configuredDirectories config
  ∧ (type file ∉ placedTypes →
     resolveFileTargetDirectory file config None
     = components (resolvedPaths config))
  ∧ (∀ override, override ≠ [] →
     resolveFileTargetDirectory file config (Some override) = override).
Proof.
  split_and!.
  - unfold resolveFileTargetDirectory, configuredDirectories. cbn [present].
    repeat case_match; rewrite !elem_of_cons; auto 20.
  - intros Htype. unfold resolveFileTargetDirectory, placedTypes in *.
    cbn [present]. unfold Js.streq.
    rewrite !not_elem_of_cons in Htype.
    repeat (rewrite bool_decide_false by tauto). done.
  - intros override Hne%truthy_true. unfold resolveFileTargetDirectory.
    cbn [present]. by rewrite Hne.
Qed.

Lemma resolveFileTargetDirectory_closed_witness :
  resolveFileTargetDirectory (Sample.file "x/a.ts" "registry:block" None "x")
    Sample.config None
  = str "/proj/src/components".
Proof.
  apply (resolveFileTargetDirectory_closed
           (Sample.file "x/a.ts" "registry:block" None "x") Sample.config).
  intros Hin. apply list_elem_of_In in Hin. simpl in Hin.
  repeat (destruct Hin as [Hin|Hin]; [discriminate Hin|]). done.
Defined.

(** ** Patterns *)

Section Patterns.
Import Js.

Lemma cut_unfold pat s :
  cut pat s
  = if startsWith pat s then Some ([], drop (length pat) s)
    else match s with
         | [] => None
         | c :: s' =>
             match cut pat s' with
             | Some (b, a) => Some (c :: b, a)
             | None => None
             end
         end.
Proof. by destruct s. Qed.

(** The cut is made at the first place the pattern starts. *)
Lemma cut_first pat before after :
  (∀ i, i < length before → ¬ pat `prefix_of` drop i (before ++ pat ++ after)) →
  cut pat (before ++ pat ++ after) = Some (before, after).
Proof.
  induction before as [|c before IH]; intros Hfirst.
  - cbn [app]. rewrite cut_unfold, startsWith_app. by rewrite drop_app_length.
  - rewrite cut_unfold.
    destruct (startsWith pat _) eqn:Hstart.
    { apply startsWith_prefix in Hstart. destruct (Hfirst 0); [simpl; lia | done]. }
    simpl. rewrite IH; [done|].
    intros i Hi. apply (Hfirst (S i)). simpl. lia.
Qed.

(** No cut where the pattern starts nowhere. *)
Lemma cut_none pat s :
  pat ≠ [] →
  (∀ i, i < length s → ¬ pat `prefix_of` drop i s) → cut pat s = None.
Proof.
  intros Hpat. induction s as [|c s IH]; intros Hnone.
  - by destruct pat.
  - rewrite cut_unfold.
    destruct (startsWith pat _) eqn:Hstart.
    { apply startsWith_prefix in Hstart. destruct (Hnone 0); [simpl; lia | done]. }
    rewrite IH; [done|]. intros i Hi. apply (Hnone (S i)). simpl. lia.
Qed.

Lemma includes_tail pat c s : includes pat (c :: s) = false → includes pat s = false.
Proof.
  unfold includes. rewrite (cut_unfold pat (c :: s)).
  destruct (startsWith pat (c :: s)); [done|]. by destruct (cut pat s) as [[]|].
Qed.

Lemma includes_cut pat s : includes pat s = false → cut pat s = None.
Proof. unfold includes. by destruct (cut pat s). Qed.

Lemma includes_leading pat s : startsWith pat s = true → includes pat s = true.
Proof. intros H. unfold includes. by rewrite cut_unfold, H. Qed.

Lemma takeWhile_app {A} (p : A → bool) a x b :
  Forall (λ y, p y = true) a → p x = false →
  takeWhile p (a ++ x :: b) = a ∧ dropWhile p (a ++ x :: b) = x :: b.
Proof.
  intros Ha Hx. induction Ha as [|y a Hy Ha [IH1 IH2]]; simpl.
  - by rewrite Hx.
  - by rewrite Hy, IH1, IH2.
Qed.


(** A text that holds no line terminator, followed by nothing or by a line
    terminator, is what the dot matches: no line terminator starts in the
    text and ends behind it. *)
Lemma firstLine_app line rest :
  (∀ t, t ∈ lineTerminators → includes t line = false) →
  rest = [] ∨ (∃ t, t ∈ lineTerminators ∧ t `prefix_of` rest) →
  firstLine (line ++ rest) = line.
Proof.
  intros Hline Hrest. induction line as [|c line IH].
  - destruct Hrest as [-> | (t & Ht & [k ->])]; [done|].
    apply list_elem_of_In in Ht. cbn in Ht.
    repeat (destruct Ht as [<-|Ht]; [reflexivity|]). done.
  - cbn [app firstLine].
    assert (existsb (λ t, startsWith t (c :: line ++ rest)) lineTerminators
            = false) as ->.
    2:{ f_equal. apply IH. intros t Ht. eapply includes_tail. by apply Hline. }
    apply not_true_iff_false. intros (t & Ht & Hstart)%existsb_exists.
    assert (Hin : startsWith t (c :: line) = false).
    { apply not_true_iff_false. intros Hlead%includes_leading.
      rewrite Hline in Hlead; [done|]. by apply list_elem_of_In. }
    cbn in Ht.
    destruct Hrest as [-> | (t' & Ht' & [k ->])].
    { rewrite app_nil_r in Hstart. by rewrite Hstart in Hin. }
    apply list_elem_of_In in Ht'. cbn in Ht'.
    destruct line as [|l1 [|l2 line]];
      repeat (destruct Ht as [<-|Ht]; [|]); try done;
      repeat (destruct Ht' as [<-|Ht']; [|]); try done;
      cbn in Hstart, Hin;
      rewrite ?andb_false_r, ?andb_true_r in Hstart, Hin; congruence.
Qed.

End Patterns.

(** ** Templates *)

Lemma templateNameAt_name name rest :
  name ≠ [] → Js.slash ∉ name →
  templateNameAt (name ++ Js.slash :: rest) = Some (name, rest).
Proof.
  intros Hname Hslash. unfold templateNameAt.
  destruct (takeWhile_app (λ c, negb (Path.isSlash c)) name Js.slash rest)
    as [-> ->]; [|done|by destruct name].
  apply Forall_forall. intros c Hc. unfold Path.isSlash.
  destruct (Ascii.eqb_spec c Js.slash) as [->|]; done.
Qed.

Lemma matchTemplatePath_leading name rel :
  name ≠ [] → Js.slash ∉ name →
  matchTemplatePath (templatesPrefix ++ name ++ Js.slash :: rel)
  = Some (name, Js.firstLine rel).
Proof.
  intros Hname Hslash.
  change (templatesPrefix ++ name ++ Js.slash :: rel)
    with ("t"%char :: drop 1 templatesPrefix ++ name ++ Js.slash :: rel).
  cbn [matchTemplatePath].
  change ("t"%char :: drop 1 templatesPrefix ++ name ++ Js.slash :: rel)
    with (templatesPrefix ++ name ++ Js.slash :: rel).
  rewrite startsWith_app, drop_app_length.
  by rewrite templateNameAt_name.
Qed.

Lemma matchTemplateName_leading name rest :
  name ≠ [] → Js.slash ∉ name →
  matchTemplateName (templatesPrefix ++ name ++ Js.slash :: rest) = Some name.
Proof.
  intros Hname Hslash.
  change (templatesPrefix ++ name ++ Js.slash :: rest)
    with ("t"%char :: drop 1 templatesPrefix ++ name ++ Js.slash :: rest).
  cbn [matchTemplateName].
  change ("t"%char :: drop 1 templatesPrefix ++ name ++ Js.slash :: rest)
    with (templatesPrefix ++ name ++ Js.slash :: rest).
  rewrite startsWith_app, drop_app_length.
  by rewrite templateNameAt_name.
Qed.

(** X5: a template file without target (any kind but page) whose path is
    [tiptap-templates/<name>/<rel>] goes to
    [<components>/tiptap-templates/<name>/<line>], where [<line>] is [<rel>]
    up to its first line terminator (all of [<rel>] when it holds none),
    without the leading [components/] of [<line>] if it has one, whatever
    the options. *)
Theorem resolveFilePath_template_file (file : RegistryFile) (config : Config)
    (options : ResolveOptions) (name line rest : list ascii) :
  present (target file) = false →
  type file ≠ str "registry:page" →
  path file = templatesPrefix ++ name ++ Js.slash :: line ++ rest →
  name ≠ [] → Js.slash ∉ name →
  (∀ t, t ∈ Js.lineTerminators → Js.includes t line = false) →
  rest = [] ∨ (∃ t, t ∈ Js.lineTerminators ∧ t `prefix_of` rest) →
  resolveFilePath file config options
  = Path.join [components (resolvedPaths config); str "tiptap-templates"; name;
               if Js.startsWith (str "components/") line
               then drop 11 line else line].
Proof.
  intros Htarget Htype Hpath Hname Hslash Hline Hrest.
  unfold resolveFilePath, templateFileRule.
  rewrite Htarget, Hpath, (includes_leading templatesPrefix)
    by apply startsWith_app.
  unfold Js.streq. rewrite bool_decide_false by done. cbn [negb andb].
  rewrite matchTemplatePath_leading by done.
  rewrite firstLine_app by done.
  destruct (Js.startsWith (str "components/") line) eqn:Hcomp; [|done].
  by rewrite replaceFirst_leading.
Qed.

Lemma resolveFilePath_template_file_witness :
  resolveFilePath
    {| path := str "tiptap-templates/simple/components/toolbar/bar.tsx"
               ++ Js.bytes [226; 128; 168] ++ str "x/y.tsx";
       type := str "registry:template"; target := None;
       content := Some (str "x") |}
    Sample.config
    {| optIsSrcDir := None; optCommonRoot := None; optFramework := None |}
  = str "/proj/src/components/tiptap-templates/simple/toolbar/bar.tsx".
Proof.
  apply (resolveFilePath_template_file _ Sample.config _ (str "simple")
           (str "components/toolbar/bar.tsx")
           (Js.bytes [226; 128; 168] ++ str "x/y.tsx"));
    [reflexivity | done | reflexivity | done | | |].
  - intros Hin. apply list_elem_of_In in Hin. simpl in Hin.
    repeat (destruct Hin as [Hin|Hin]; [discriminate Hin|]). done.
  - intros t Ht. apply list_elem_of_In in Ht. cbn in Ht.
    repeat (destruct Ht as [<-|Ht]; [reflexivity|]). done.
  - right. exists (Js.bytes [226; 128; 168]).
    split; [|by exists (str "x/y.tsx")].
    apply list_elem_of_In. cbn. auto.
Defined.

(** X6: a file of a template with an explicit target that contains
    [/data/] goes to [<components>/tiptap-templates/<name>/data/<rest>],
    where [<rest>] is what the target holds between its first [/data/] and
    the next one, or the end of the target when there is no other: what
    the target says before the first [/data/] and after the second, the
    kind of the file and the options play no part. *)
Theorem resolveFilePath_template_data (file : RegistryFile) (config : Config)
    (options : ResolveOptions) (name rest before dataPath after : list ascii) :
  path file = templatesPrefix ++ name ++ Js.slash :: rest →
  name ≠ [] → Js.slash ∉ name →
  target file = Some (before ++ str "/data/" ++ dataPath ++ after) →
  (∀ i, i < length before →
        ¬ str "/data/"
          `prefix_of` drop i (before ++ str "/data/" ++ dataPath ++ after)) →
  (∀ i, i < length dataPath →
        ¬ str "/data/" `prefix_of` drop i (dataPath ++ after)) →
  after = [] ∨ str "/data/" `prefix_of` after →
  resolveFilePath file config options
  = Path.join [components (resolvedPaths config); str "tiptap-templates"; name;
               str "data"; dataPath].
Proof.
  intros Hpath Hname Hslash Htarget Hfirst Hnext Hafter.
  assert (Hcut : Js.cut (str "/data/")
                   (before ++ str "/data/" ++ dataPath ++ after)
                 = Some (before, dataPath ++ after)) by by apply cut_first.
  assert (Hsecond : match Js.cut (str "/data/") (dataPath ++ after) with
                    | Some (b, _) => Some b
                    | None => Some (dataPath ++ after)
                    end = Some dataPath).
  { destruct Hafter as [-> | [k ->]].
    - rewrite app_nil_r in *. by rewrite cut_none.
    - by rewrite cut_first. }
  assert (Hrule : templateDataRule file config
    = Some (Path.join [components (resolvedPaths config);
                       str "tiptap-templates"; name; str "data"; dataPath])).
  { unfold templateDataRule, present. rewrite Htarget, Hpath.
    cbn [default from_option id].
    rewrite (includes_leading templatesPrefix) by apply startsWith_app.
    unfold Js.includes at 1, Js.splitSecond. rewrite Hcut, Hsecond.
    rewrite matchTemplateName_leading by done.
    by destruct before. }
  unfold resolveFilePath. rewrite Hrule.
  unfold templateFileRule, present. rewrite Htarget.
  by destruct before.
Qed.

Lemma resolveFilePath_template_data_witness :
  resolveFilePath
    (Sample.file "tiptap-templates/simple/data/content.json"
       "registry:page" (Some "~/lib/data/a/data/b.json") "x")
    Sample.config
    {| optIsSrcDir := Some true; optCommonRoot := None; optFramework := None |}
  = str "/proj/src/components/tiptap-templates/simple/data/a".
Proof.
  apply (resolveFilePath_template_data
           (Sample.file "tiptap-templates/simple/data/content.json"
              "registry:page" (Some "~/lib/data/a/data/b.json") "x")
           Sample.config _ (str "simple") (str "data/content.json")
           (str "~/lib") (str "a") (str "/data/b.json"));
    [reflexivity | done | | reflexivity | | | right; by exists (str "b.json")].
  - intros Hin. apply list_elem_of_In in Hin. simpl in Hin.
    repeat (destruct Hin as [Hin|Hin]; [discriminate Hin|]). done.
  - intros i Hi [k Hk]. change (length (str "~/lib")) with 5 in Hi.
    do 5 (destruct i as [|i]; [discriminate Hk|]). lia.
  - intros i Hi [k Hk]. change (length (str "a")) with 1 in Hi.
    destruct i as [|i]; [discriminate Hk|]. lia.
Defined.

(** X7: an explicit target [~/<rest>] that the template-data rule does not
    take resolves to [cwd] joined with [<rest>]: the src directory, the
    framework and the kind of the file (a page included) play no part. *)
Theorem resolveFilePath_project_root (file : RegistryFile) (config : Config)
    (options : ResolveOptions) (rest : list ascii) :
  target file = Some (str "~/" ++ rest) →
  Js.includes templatesPrefix (path file) = false
  ∨ Js.includes (str "/data/") (str "~/" ++ rest) = false →
  resolveFilePath file config options
  = Path.join [cwd (resolvedPaths config); rest].
Proof.
  intros Htarget Hdata.
  assert (Js.includes templatesPrefix (path file)
          && Js.includes (str "/data/") (str "~/" ++ rest) = false) as Hguard.
  { destruct Hdata as [-> | ->]; [done | apply andb_false_r]. }
  unfold resolveFilePath, templateFileRule, templateDataRule, present.
  rewrite Htarget. cbn [default from_option id].
  change (Js.truthy (str "~/" ++ rest)) with true. cbn [negb andb].
  rewrite Hguard. unfold explicitTargetRule.
  rewrite startsWith_app, replaceFirst_leading by apply startsWith_app.
  by rewrite drop_app_length.
Qed.

Lemma resolveFilePath_project_root_witness :
  resolveFilePath
    (Sample.file "x/page.tsx" "registry:page" (Some "~/src/app/page.tsx") "x")
    Sample.config
    {| optIsSrcDir := Some true; optCommonRoot := None; optFramework := None |}
  = str "/proj/src/app/page.tsx".
Proof.
  apply (resolveFilePath_project_root
           (Sample.file "x/page.tsx" "registry:page"
              (Some "~/src/app/page.tsx") "x")
           Sample.config _ (str "src/app/page.tsx"));
    [reflexivity | left; reflexivity].
Defined.

(** ** Excluded files *)

Lemma Path_join_nonempty args : Path.join args ≠ [].
Proof.
  unfold Path.join. destruct (filter _ args) as [|part parts]; [done|].
  unfold Path.normalize. repeat case_match; done.
Qed.

Lemma pageExtension_nonempty e : In e pageExtensions → e ≠ [].
Proof. simpl. intros [<-|[<-|[<-|[<-|[]]]]]; done. Qed.

Lemma stripPageSegment_nonempty s : s ≠ [] → stripPageSegment s ≠ [].
Proof.
  intros Hs. unfold stripPageSegment.
  destruct (find _ pageExtensions) as [e|] eqn:Hfind; [|done].
  apply find_some in Hfind as [He%pageExtension_nonempty _].
  intros [_ ?]%app_eq_nil. done.
Qed.

Lemma replaceAppPrefix_nonempty rep s :
  rep ≠ [] → s ≠ [] → replaceAppPrefix rep s ≠ [].
Proof.
  intros Hrep Hs. unfold replaceAppPrefix. case_match; [|done].
  intros [? _]%app_eq_nil. done.
Qed.

Lemma resolvePageTarget_empty target framework :
  resolvePageTarget target framework = [] ↔
  target = [] ∨ ∀ name, name ∈ knownFrameworks → framework ≠ Some name.
Proof.
  unfold resolvePageTarget, knownFrameworks. split.
  - destruct (decide (target = [])) as [->|Hne]; [by left|].
    destruct (present framework) eqn:Hpresent; cbn [negb].
    2:{ intros _. right. intros name Hname ->.
        apply list_elem_of_In in Hname. simpl in Hname.
        destruct Hname as [<-|[<-|[<-|[<-|[]]]]]; done. }
    repeat case_bool_decide; try done.
    + intros Hres. exfalso. eapply stripPageSegment_nonempty; [|exact Hres].
      by apply replaceAppPrefix_nonempty.
    + intros Hres. exfalso. eapply stripPageSegment_nonempty; [|exact Hres].
      by apply replaceAppPrefix_nonempty.
    + intros Hres. exfalso. eapply stripPageSegment_nonempty; [|exact Hres].
      by apply replaceAppPrefix_nonempty.
    + intros _. right. intros name Hname ->.
      apply list_elem_of_In in Hname. simpl in Hname.
      destruct Hname as [<-|[<-|[<-|[<-|[]]]]]; done.
  - intros [-> | Hunknown].
    + destruct (present framework); cbn [negb]; [|done].
      repeat case_bool_decide; reflexivity.
    + destruct (present framework); cbn [negb]; [|done].
      repeat (case_bool_decide;
              [exfalso; eapply Hunknown; [|eassumption]; repeat constructor|]).
      done.
Qed.

Lemma templateFileRule_nonempty file config p :
  templateFileRule file config = Some p → p ≠ [].
Proof.
  unfold templateFileRule. repeat case_match; try done;
    intros [= <-]; apply Path_join_nonempty.
Qed.

Lemma templateDataRule_nonempty file config p :
  templateDataRule file config = Some p → p ≠ [].
Proof.
  unfold templateDataRule. repeat case_match; try done;
    intros [= <-]; apply Path_join_nonempty.
Qed.

(** X8: [resolvePageTarget] returns the empty string exactly when the
    target is empty or the framework is none of next-app, next-pages,
    react-router and laravel (absent and empty included). *)
Theorem resolvePageTarget_empty_iff (target : list ascii)
    (framework : option (list ascii)) :
  resolvePageTarget target framework = [] ↔
  target = [] ∨ ∀ name, name ∈ knownFrameworks → framework ≠ Some name.
Proof. apply resolvePageTarget_empty. Qed.

(** X9: [resolveFilePath] gives the empty path only to a page with an
    explicit target under a framework that is none of the four known ones;
    every other file gets a path. *)
Theorem resolveFilePath_empty_only_pages (file : RegistryFile)
    (config : Config) (options : ResolveOptions) :
  resolveFilePath file config options = [] →
  type file = str "registry:page"
  ∧ present (target file) = true
  ∧ ∀ name, name ∈ knownFrameworks → optFramework options ≠ Some name.
Proof.
  unfold resolveFilePath.
  destruct (templateFileRule file config) as [p|] eqn:Hfile.
  { intros Hp. destruct (templateFileRule_nonempty _ _ _ Hfile Hp). }
  destruct (templateDataRule file config) as [p|] eqn:Hdata.
  { intros Hp. destruct (templateDataRule_nonempty _ _ _ Hdata Hp). }
  destruct (present (target file)) eqn:Hpresent.
  2:{ by intros ?%Path_join_nonempty. }
  unfold explicitTargetRule.
  destruct (Js.startsWith (str "~/") _); [by intros ?%Path_join_nonempty|].
  unfold Js.streq. case_bool_decide as Htype.
  - destruct (Js.truthy (resolvePageTarget _ _)) eqn:Hpage; cbn [negb].
    { case_match; by intros ?%Path_join_nonempty. }
    intros _. split_and!; [done | done |].
    apply truthy_false, resolvePageTarget_empty in Hpage as [Hempty|]; [|done].
    unfold present in Hpresent. destruct (target file) as [t|]; [|done].
    cbn in Hempty. subst t. done.
  - destruct (Js.truthy _) eqn:Htruthy; cbn [negb].
    { case_match; by intros ?%Path_join_nonempty. }
    unfold present in Hpresent. destruct (target file) as [t|]; [|done].
    cbn in Htruthy. congruence.
Qed.

Lemma resolveFilePath_empty_only_pages_witness :
  type (Sample.file "x/page.tsx" "registry:page" (Some "app/x/page.tsx") "x")
  = str "registry:page".
Proof.
  apply (resolveFilePath_empty_only_pages
           (Sample.file "x/page.tsx" "registry:page" (Some "app/x/page.tsx") "x")
           Sample.config
           {| optIsSrcDir := None; optCommonRoot := None;
              optFramework := Some (str "remix") |}).
  reflexivity.
Defined.

(** X10: a page with an explicit target (not [~/...], not taken by the
    template-data rule) under a framework that is none of the four known
    ones is left out: its path is empty, and the loop of [updateFiles]
    passes over it without a call and without an entry. *)
Theorem resolveFilePath_page_unknown_framework (file : RegistryFile)
    (config : Config) (info : option ProjectInfo) (fileTarget : list ascii) :
  type file = str "registry:page" →
  target file = Some fileTarget →
  fileTarget ≠ [] →
  Js.startsWith (str "~/") fileTarget = false →
  Js.includes templatesPrefix (path file) = false
  ∨ Js.includes (str "/data/") fileTarget = false →
  (∀ name, name ∈ knownFrameworks → frameworkName <$> info ≠ Some name) →
  (∀ allPaths, resolveFilePath file config (resolveOptions info allPaths file) = [])
  ∧ ∀ transform confirm processCwd options allPaths m w,
      updateFile transform confirm processCwd config options info allPaths
        file m w
      = Returned m w.
Proof.
  intros Htype Htarget Hne%truthy_true Htilde Hdata Hunknown.
  assert (Hempty : ∀ allPaths,
    resolveFilePath file config (resolveOptions info allPaths file) = []).
  { intros allPaths.
    unfold resolveFilePath, templateFileRule, templateDataRule, present.
    rewrite Htarget. cbn [default from_option id]. rewrite Hne. cbn [negb andb].
    assert (Js.includes templatesPrefix (path file)
            && Js.includes (str "/data/") fileTarget = false) as ->.
    { destruct Hdata as [-> | ->]; [done | apply andb_false_r]. }
    unfold explicitTargetRule. rewrite Htilde, Htype.
    unfold Js.streq. rewrite bool_decide_true by done.
    cbn [resolveOptions optFramework].
    assert (resolvePageTarget fileTarget (frameworkName <$> info) = []) as ->
      by (apply resolvePageTarget_empty; by right).
    done. }
  split; [done|]. intros.
  apply updateFile_excluded. unfold processed, resolvedOf.
  rewrite Hempty. apply andb_false_r.
Qed.

Lemma resolveFilePath_page_unknown_framework_witness :
  resolveFilePath
    (Sample.file "x/page.tsx" "registry:page" (Some "app/x/page.tsx") "x")
    Sample.config (resolveOptions None []
      (Sample.file "x/page.tsx" "registry:page" (Some "app/x/page.tsx") "x"))
  = [].
Proof.
  apply (resolveFilePath_page_unknown_framework
           (Sample.file "x/page.tsx" "registry:page" (Some "app/x/page.tsx") "x")
           Sample.config None (str "app/x/page.tsx"));
    [reflexivity | reflexivity | done | reflexivity | left; reflexivity | done].
Defined.

(** ** The extension downgrade *)

Section Downgrade.
Import Js.

Lemma dropWhile_app_all {A} (p : A → bool) a b :
  Forall (λ x, p x = true) a → dropWhile p (a ++ b) = dropWhile p b.
Proof. induction 1 as [|x a Hx Ha IH]; simpl; [done|]. by rewrite Hx. Qed.

Lemma endsWith_true p s : endsWith p s = true ↔ ∃ stem, s = stem ++ p.
Proof.
  unfold endsWith. rewrite startsWith_prefix. split.
  - intros [k Hk]. exists (reverse k).
    apply (f_equal reverse) in Hk.
    by rewrite reverse_involutive, reverse_app, reverse_involutive in Hk.
  - intros [stem ->]. exists (reverse stem). by rewrite reverse_app.
Qed.

Lemma endsWith_last p stem e :
  length p ≤ length e → endsWith p (stem ++ e) = endsWith p e.
Proof. apply endsWith_app_short. Qed.

Lemma downgrade_tsx stem :
  downgradeExtension (stem ++ str ".tsx") = stem ++ str ".jsx".
Proof.
  unfold downgradeExtension.
  rewrite (endsWith_last (str ".tsx")) by (vm_compute; lia).
  change (endsWith (str ".tsx") (str ".tsx")) with true. cbv iota.
  by rewrite take_app_minus.
Qed.

Lemma downgrade_ts stem :
  downgradeExtension (stem ++ str ".ts") = stem ++ str ".js".
Proof.
  unfold downgradeExtension.
  assert (endsWith (str ".tsx") (stem ++ str ".ts") = false) as ->.
  { unfold endsWith. rewrite reverse_app. reflexivity. }
  rewrite (endsWith_last (str ".ts")) by (vm_compute; lia).
  change (endsWith (str ".ts") (str ".ts")) with true. cbv iota.
  by rewrite take_app_minus.
Qed.

Lemma downgrade_cases p :
  (∃ stem, p = stem ++ str ".tsx"
           ∧ downgradeExtension p = stem ++ str ".jsx")
  ∨ (∃ stem, p = stem ++ str ".ts" ∧ downgradeExtension p = stem ++ str ".js")
  ∨ (endsWith (str ".tsx") p = false ∧ endsWith (str ".ts") p = false
     ∧ downgradeExtension p = p).
Proof.
  destruct (endsWith (str ".tsx") p) eqn:Htsx.
  { left. apply endsWith_true in Htsx as [stem ->]. exists stem.
    by rewrite downgrade_tsx. }
  destruct (endsWith (str ".ts") p) eqn:Hts.
  { right; left. apply endsWith_true in Hts as [stem ->]. exists stem.
    by rewrite downgrade_ts. }
  right; right. unfold downgradeExtension. by rewrite Htsx, Hts.
Qed.

Lemma downgrade_idempotent p :
  downgradeExtension (downgradeExtension p) = downgradeExtension p.
Proof.
  destruct (downgrade_cases p)
    as [(stem & -> & ->) | [(stem & -> & ->) | (Htsx & Hts & ->)]].
  - unfold downgradeExtension, endsWith. rewrite !reverse_app. reflexivity.
  - unfold downgradeExtension, endsWith. rewrite !reverse_app. reflexivity.
  - unfold downgradeExtension. by rewrite Htsx, Hts.
Qed.

(** The directory of a path does not depend on the characters after its
    last slash. *)
Lemma dirname_suffix c0 mid e :
  e ≠ [] → Forall (λ c, Path.isSlash c = false) e →
  Path.dirname (c0 :: mid ++ e)
  = match dropWhile (λ c, negb (Path.isSlash c)) (reverse mid) with
    | [] => if Path.isSlash c0 then [slash] else Path.dot
    | _ :: r3 =>
        match r3 with
        | [] => if Path.isSlash c0 then str "//" else [c0]
        | _ :: _ => c0 :: reverse r3
        end
    end.
Proof.
  intros Hne He. unfold Path.dirname. rewrite reverse_app.
  assert (Hrev : Forall (λ c, Path.isSlash c = false) (reverse e))
    by by apply Forall_reverse.
  destruct (reverse e) as [|x r] eqn:Hr.
  { apply (f_equal reverse) in Hr. by rewrite reverse_involutive in Hr. }
  apply Forall_cons in Hrev as [Hx Hrest].
  cbn [app dropWhile]. rewrite Hx.
  change (x :: r ++ reverse mid) with ((x :: r) ++ reverse mid).
  rewrite dropWhile_app_all; [done|].
  constructor; [by rewrite Hx|].
  eapply Forall_impl; [exact Hrest|]. by intros c ->.
Qed.

Lemma dirname_downgrade p :
  Path.dirname (downgradeExtension p) = Path.dirname p.
Proof.
  destruct (downgrade_cases p)
    as [(stem & -> & ->) | [(stem & -> & ->) | (_ & _ & ->)]]; [| |done].
  - destruct stem as [|c0 mid]; [reflexivity|]. simpl app.
    rewrite !dirname_suffix; by repeat constructor.
  - destruct stem as [|c0 mid]; [reflexivity|]. simpl app.
    rewrite !dirname_suffix; by repeat constructor.
Qed.

End Downgrade.

(** X11: the downgrade turns a final [.tsx] into [.jsx] and a final [.ts]
    into [.js], and leaves every other path alone; it keeps the length of
    the path, and doing it twice is doing it once. *)
Theorem downgradeExtension_shape :
  (∀ stem, downgradeExtension (stem ++ str ".tsx") = stem ++ str ".jsx")
  ∧ (∀ stem, downgradeExtension (stem ++ str ".ts") = stem ++ str ".js")
  ∧ (∀ p, ¬ str ".ts" `suffix_of` p → ¬ str ".tsx" `suffix_of` p →
          downgradeExtension p = p)
  ∧ (∀ p, length (downgradeExtension p) = length p)
  ∧ (∀ p, downgradeExtension (downgradeExtension p) = downgradeExtension p).
Proof.
  split_and!.
  - apply downgrade_tsx.
  - apply downgrade_ts.
  - intros p Hts Htsx.
    destruct (downgrade_cases p)
      as [(stem & -> & _) | [(stem & -> & _) | (_ & _ & ->)]]; [| |done].
    + destruct Htsx. by exists stem.
    + destruct Hts. by exists stem.
  - intros p.
    destruct (downgrade_cases p)
      as [(stem & -> & ->) | [(stem & -> & ->) | (_ & _ & ->)]];
      by rewrite ?length_app.
  - apply downgrade_idempotent.
Qed.

(** X12: the downgrade never changes the directory of a path, so the
    directory [updateFiles] creates, taken from the resolved path, is the
    directory of the file it writes. *)
Theorem downgradeExtension_keeps_directory (config : Config)
    (resolved : list ascii) :
  Path.dirname (downgradeExtension resolved) = Path.dirname resolved
  ∧ Path.dirname (finalPath config resolved) = Path.dirname resolved.
Proof.
  split; [apply dirname_downgrade|].
  unfold finalPath. destruct (tsx config); [done | apply dirname_downgrade].
Qed.

(** ** Normalized content *)

Section Normalize.
Import Js.

Lemma replaceCrLf_cons c s :
  c ≠ carriageReturn → replaceCrLf (c :: s) = c :: replaceCrLf s.
Proof.
  intros Hc. destruct s as [|d s]; [done|]. cbn [replaceCrLf].
  destruct (Ascii.eqb_spec c "013") as [->|_]; done.
Qed.

Lemma replaceCrLf_app_no_cr l rest :
  carriageReturn ∉ l → replaceCrLf (l ++ rest) = l ++ replaceCrLf rest.
Proof.
  induction l as [|c l IH]; [done|].
  intros [Hc Hl]%not_elem_of_cons. cbn [app].
  rewrite replaceCrLf_cons by done. by rewrite IH.
Qed.

Lemma replaceCrLf_no_cr s : carriageReturn ∉ s → replaceCrLf s = s.
Proof.
  intros Hs. rewrite <- (app_nil_r s) at 1.
  rewrite replaceCrLf_app_no_cr by done. by rewrite app_nil_r.
Qed.

Lemma replaceCrLf_pair c d s :
  replaceCrLf (c :: d :: s)
  = if Ascii.eqb c "013" && Ascii.eqb d "010"
    then "010"%char :: replaceCrLf s
    else c :: replaceCrLf (d :: s).
Proof. reflexivity. Qed.

Lemma join_cons_sep (sep x y : list ascii) rest :
  join sep (x :: y :: rest) = x ++ sep ++ join sep (y :: rest).
Proof. reflexivity. Qed.

Lemma join_no_cr (lines : list (list ascii)) :
  Forall (λ l, carriageReturn ∉ l) lines →
  carriageReturn ∉ join [lineFeed] lines.
Proof.
  induction 1 as [|l lines Hl Hlines IH]; [by intros ?%elem_of_nil|].
  destruct lines as [|l' lines]; [done|].
  rewrite join_cons_sep. rewrite !elem_of_app, list_elem_of_singleton.
  intros [?|[?|?]]; done.
Qed.

Lemma replaceCrLf_join (lines : list (list ascii)) tail :
  Forall (λ l, carriageReturn ∉ l) lines →
  replaceCrLf (join [carriageReturn; lineFeed] lines ++ tail)
  = join [lineFeed] lines ++ replaceCrLf tail.
Proof.
  induction 1 as [|l lines Hl Hlines IH]; [done|].
  destruct lines as [|l' lines].
  - cbn [join]. by apply replaceCrLf_app_no_cr.
  - rewrite !join_cons_sep, <- !app_assoc.
    rewrite replaceCrLf_app_no_cr by done. f_equal.
    cbn [app]. rewrite replaceCrLf_pair.
    change (Ascii.eqb carriageReturn "013" && Ascii.eqb lineFeed "010") with true.
    cbv iota. f_equal. apply IH.
Qed.

Lemma dropWhile_head {A} (p : A → bool) l x :
  head (dropWhile p l) = Some x → p x = false.
Proof.
  induction l as [|y l IH]; [done|]. simpl.
  destruct (p y) eqn:Hy; [done|]. by intros [= <-].
Qed.


End Normalize.

(** ** Trimming *)

(** The loop of [trimStart] and [trimEnd], for any set of sequences none of
    which is empty or starts another. *)
Section Strip.
Import Js.
Variable seqs : list (list ascii).
Hypothesis seqs_code : ∀ t s,
  t ∈ seqs → List.find (λ u, startsWith u (t ++ s)) seqs = Some t.
Hypothesis seqs_nonempty : ∀ t, t ∈ seqs → t ≠ [].

Lemma stripOne_app t s : t ∈ seqs → stripOne seqs (t ++ s) = Some s.
Proof using seqs_code.
  intros Ht. unfold stripOne. by rewrite seqs_code, drop_app_length.
Qed.

Lemma stripOne_Some s s' :
  stripOne seqs s = Some s' →
  length s' < length s ∧ ∃ t, t ∈ seqs ∧ s = t ++ s'.
Proof using seqs_nonempty.
  unfold stripOne.
  destruct (List.find _ seqs) as [t|] eqn:Hfind; [|done]. intros [= <-].
  apply find_some in Hfind as [Ht%list_elem_of_In [k ->]%startsWith_prefix].
  rewrite drop_app_length, length_app. split; [|by exists t].
  pose proof (seqs_nonempty t Ht). destruct t; [done | simpl; lia].
Qed.

Lemma stripOne_None s t :
  stripOne seqs s = None → t ∈ seqs → ¬ t `prefix_of` s.
Proof.
  unfold stripOne.
  destruct (List.find _ seqs) as [u|] eqn:Hfind; [done|]. intros _ Ht Hpre.
  apply list_elem_of_In in Ht.
  pose proof (find_none _ _ Hfind t Ht) as Hno. cbn beta in Hno.
  apply startsWith_prefix in Hpre. by rewrite Hpre in Hno.
Qed.

(** More rounds than the text is long change nothing. *)
Lemma stripLoop_rounds n : ∀ m s,
  length s ≤ n → length s ≤ m → stripLoop seqs n s = stripLoop seqs m s.
Proof using seqs_nonempty.
  induction n as [|n IH]; intros m s Hn Hm.
  - destruct s; [|simpl in Hn; lia]. destruct m; [done|]. cbn [stripLoop].
    destruct (stripOne seqs []) as [s'|] eqn:Hone; [|done].
    apply stripOne_Some in Hone as [Hlen _]. simpl in Hlen. lia.
  - destruct m as [|m]; cbn [stripLoop].
    + destruct s; [|simpl in Hm; lia].
      destruct (stripOne seqs []) as [s'|] eqn:Hone; [|done].
      apply stripOne_Some in Hone as [Hlen _]. simpl in Hlen. lia.
    + destruct (stripOne seqs s) as [s'|] eqn:Hone; [|done].
      apply stripOne_Some in Hone as [Hlen _]. apply IH; lia.
Qed.

(** With enough rounds, the loop ends on a text that starts with none of
    the sequences. *)
Lemma stripLoop_done n : ∀ s,
  length s ≤ n → stripOne seqs (stripLoop seqs n s) = None.
Proof using seqs_nonempty.
  induction n as [|n IH]; intros s Hn; cbn [stripLoop].
  - destruct s; [|simpl in Hn; lia].
    destruct (stripOne seqs []) as [s'|] eqn:Hone; [|done].
    apply stripOne_Some in Hone as [Hlen _]. simpl in Hlen. lia.
  - destruct (stripOne seqs s) as [s'|] eqn:Hone; [|done].
    apply stripOne_Some in Hone as [Hlen _]. apply IH. lia.
Qed.

Lemma stripLoop_suffix n : ∀ s, stripLoop seqs n s `suffix_of` s.
Proof using seqs_nonempty.
  induction n as [|n IH]; intros s; cbn [stripLoop]; [done|].
  destruct (stripOne seqs s) as [s'|] eqn:Hone; [|done].
  apply stripOne_Some in Hone as [_ (t & _ & ->)].
  by apply suffix_app_r.
Qed.

(** Sequences at the start are removed one after the other. *)
Lemma stripLoop_concat (ts : list (list ascii)) s :
  Forall (λ t, t ∈ seqs) ts →
  stripLoop seqs (length (concat ts ++ s)) (concat ts ++ s)
  = stripLoop seqs (length s) s.
Proof using seqs_code seqs_nonempty.
  induction 1 as [|t ts Ht Hts IH]; [done|].
  cbn [concat]. rewrite <- app_assoc, length_app.
  pose proof (seqs_nonempty t Ht) as Hne.
  destruct (length t) as [|n] eqn:Hlen; [by destruct t|].
  cbn [Nat.add stripLoop]. rewrite stripOne_app by done.
  rewrite <- IH. apply stripLoop_rounds; lia.
Qed.

End Strip.

Section Trim.
Import Js.

Lemma whiteSpace_code t s :
  t ∈ whiteSpace → List.find (λ u, startsWith u (t ++ s)) whiteSpace = Some t.
Proof.
  intros Ht. apply list_elem_of_In in Ht. vm_compute in Ht.
  repeat (destruct Ht as [<-|Ht]; [reflexivity|]). done.
Qed.

Lemma whiteSpace_reverse_code t s :
  t ∈ reverse <$> whiteSpace →
  List.find (λ u, startsWith u (t ++ s)) (reverse <$> whiteSpace) = Some t.
Proof.
  intros Ht. apply list_elem_of_In in Ht. vm_compute in Ht.
  repeat (destruct Ht as [<-|Ht]; [reflexivity|]). done.
Qed.

Lemma whiteSpace_nonempty t : t ∈ whiteSpace → t ≠ [].
Proof.
  intros Ht. apply list_elem_of_In in Ht. vm_compute in Ht.
  repeat (destruct Ht as [<-|Ht]; [done|]). done.
Qed.

Lemma whiteSpace_reverse_nonempty t : t ∈ reverse <$> whiteSpace → t ≠ [].
Proof.
  intros (u & -> & Hu%whiteSpace_nonempty)%list_elem_of_fmap.
  intros Hnil. apply Hu. by rewrite <- (reverse_involutive u), Hnil.
Qed.

(** A white-space character is a lone carriage return or holds none, and
    is a lone line feed or does not start with one. *)
Lemma whiteSpace_cr t :
  t ∈ whiteSpace → t = [carriageReturn] ∨ carriageReturn ∉ t.
Proof.
  intros Ht. apply list_elem_of_In in Ht. vm_compute in Ht.
  repeat (destruct Ht as [<-|Ht];
          [first [ by left
                 | right; intros Hin; apply list_elem_of_In in Hin;
                   vm_compute in Hin;
                   repeat (destruct Hin as [Hin|Hin]; [discriminate Hin|]);
                   done ]|]).
  done.
Qed.

Lemma whiteSpace_lf t :
  t ∈ whiteSpace → t = [lineFeed] ∨ ∃ c t', t = c :: t' ∧ c ≠ lineFeed.
Proof.
  intros Ht. apply list_elem_of_In in Ht. vm_compute in Ht.
  repeat (destruct Ht as [<-|Ht];
          [first [ by left | right; eexists _, _; by split ]|]).
  done.
Qed.

Lemma replaceCrLf_whiteSpace_bounded n : ∀ ts,
  length ts ≤ n →
  Forall (λ t, t ∈ whiteSpace) ts →
  ∃ ts', Forall (λ t, t ∈ whiteSpace) ts'
         ∧ replaceCrLf (concat ts) = concat ts'.
Proof.
  induction n as [|n IH]; intros ts Hn Hts.
  { destruct ts; [by exists [] | simpl in Hn; lia]. }
  destruct Hts as [|t ts Ht Hts]; [by exists []|]. simpl in Hn.
  destruct (whiteSpace_cr t Ht) as [-> | Hcr].
  - destruct Hts as [|t2 ts Ht2 Hts]; [by exists [[carriageReturn]]; repeat constructor|].
    simpl in Hn. destruct (whiteSpace_lf t2 Ht2) as [-> | (c & t' & -> & Hc)].
    + destruct (IH ts) as (ts' & Hts' & Heq); [lia | done |].
      exists ([lineFeed] :: ts'). split; [by constructor|].
      cbn [concat app]. rewrite replaceCrLf_pair.
      change (Ascii.eqb carriageReturn "013" && Ascii.eqb lineFeed "010")
        with true.
      cbv iota. by rewrite Heq.
    + destruct (IH ((c :: t') :: ts)) as (ts' & Hts' & Heq);
        [simpl; lia | by constructor |].
      exists ([carriageReturn] :: ts'). split; [by constructor|].
      cbn [concat app] in *. rewrite replaceCrLf_pair.
      assert (Ascii.eqb c "010" = false) as ->.
      { by apply Ascii.eqb_neq. }
      rewrite andb_false_r. by rewrite Heq.
  - destruct (IH ts) as (ts' & Hts' & Heq); [lia | done |].
    exists (t :: ts'). split; [by constructor|].
    cbn [concat]. by rewrite replaceCrLf_app_no_cr, Heq.
Qed.

Lemma replaceCrLf_whiteSpace ts :
  Forall (λ t, t ∈ whiteSpace) ts →
  ∃ ts', Forall (λ t, t ∈ whiteSpace) ts'
         ∧ replaceCrLf (concat ts) = concat ts'.
Proof. by apply (replaceCrLf_whiteSpace_bounded (length ts)). Qed.

Lemma reverse_concat (ts : list (list ascii)) :
  reverse (concat ts) = concat (reverse <$> reverse ts).
Proof.
  induction ts as [|t ts IH]; [done|].
  cbn [concat]. rewrite reverse_app, IH, reverse_cons, fmap_app, concat_app.
  cbn [fmap list_fmap concat]. by rewrite app_nil_r.
Qed.

(** White space at the end does not survive [trimEnd]. *)
Lemma trimEnd_app_whiteSpace s ts :
  Forall (λ t, t ∈ whiteSpace) ts → trimEnd (s ++ concat ts) = trimEnd s.
Proof.
  intros Hts. unfold trimEnd. f_equal.
  rewrite <- (length_reverse (s ++ concat ts)), <- (length_reverse s).
  rewrite reverse_app, reverse_concat.
  apply stripLoop_concat;
    [apply whiteSpace_reverse_code | apply whiteSpace_reverse_nonempty |].
  apply Forall_fmap, Forall_reverse.
  eapply Forall_impl; [exact Hts|]. intros t Ht. unfold compose.
  apply list_elem_of_fmap. by exists t.
Qed.

End Trim.

(** X13: the comparison of contents does not see the line ends nor what
    white space ends the file: lines without carriage return joined by CRLF
    and followed by any white-space characters (those [trim] removes,
    U+00A0 and U+FEFF among them) normalize to the same text as the same
    lines joined by LF. *)
Theorem getNormalizedFileContent_line_ends (lines : list (list ascii))
    (trailing : list (list ascii)) :
  Forall (λ line, carriageReturn ∉ line) lines →
  Forall (λ t, t ∈ Js.whiteSpace) trailing →
  getNormalizedFileContent
    (Js.join [carriageReturn; lineFeed] lines ++ concat trailing)
  = getNormalizedFileContent (Js.join [lineFeed] lines).
Proof.
  intros Hlines Htrailing. unfold getNormalizedFileContent, Js.trim.
  rewrite replaceCrLf_join by done.
  destruct (replaceCrLf_whiteSpace trailing Htrailing) as (ts & Hts & ->).
  rewrite trimEnd_app_whiteSpace by done.
  by rewrite (replaceCrLf_no_cr (Js.join _ _)) by by apply join_no_cr.
Qed.

Lemma getNormalizedFileContent_line_ends_witness :
  getNormalizedFileContent
    (Js.join [carriageReturn; lineFeed] [str "a"; str "b"]
     ++ concat [[carriageReturn]; [lineFeed]; Js.bytes [194; 160];
                Js.bytes [239; 187; 191]])
  = getNormalizedFileContent (Js.join [lineFeed] [str "a"; str "b"]).
Proof.
  apply (getNormalizedFileContent_line_ends [str "a"; str "b"]
           [[carriageReturn]; [lineFeed]; Js.bytes [194; 160];
            Js.bytes [239; 187; 191]]).
  - repeat constructor; intros Hin; apply list_elem_of_In in Hin;
      simpl in Hin; destruct Hin as [Hin|[]]; discriminate Hin.
  - repeat constructor; apply list_elem_of_In; vm_compute; tauto.
Defined.

(** X14: normalized content neither starts nor ends with a white-space
    character, one of those [trim] removes. *)
Theorem getNormalizedFileContent_trimmed (content t : list ascii) :
  t ∈ Js.whiteSpace →
  ¬ t `prefix_of` getNormalizedFileContent content
  ∧ ¬ t `suffix_of` getNormalizedFileContent content.
Proof.
  intros Ht. unfold getNormalizedFileContent, Js.trim, Js.trimStart.
  set (kept := Js.trimEnd (Js.replaceCrLf content)). split.
  - eapply stripOne_None; [|exact Ht].
    apply stripLoop_done; [apply whiteSpace_nonempty | done].
  - intros Hsuffix.
    assert (Hkept : t `suffix_of` kept).
    { etrans; [exact Hsuffix|].
      apply stripLoop_suffix, whiteSpace_nonempty. }
    unfold kept, Js.trimEnd in Hkept.
    apply suffix_prefix_reverse in Hkept.
    rewrite reverse_involutive in Hkept. revert Hkept.
    eapply stripOne_None.
    + apply stripLoop_done; [apply whiteSpace_reverse_nonempty|].
      by rewrite length_reverse.
    + apply list_elem_of_fmap. by exists t.
Qed.

Lemma getNormalizedFileContent_trimmed_witness :
  getNormalizedFileContent
    (Js.bytes [239; 187; 191] ++ str " a b" ++ Js.bytes [194; 160; 13; 10])
  = str "a b"
  ∧ ¬ Js.bytes [239; 187; 191]
      `prefix_of` getNormalizedFileContent
                    (Js.bytes [239; 187; 191] ++ str " a b"
                     ++ Js.bytes [194; 160; 13; 10])
  ∧ ¬ Js.bytes [194; 160]
      `suffix_of` getNormalizedFileContent
                    (Js.bytes [239; 187; 191] ++ str " a b"
                     ++ Js.bytes [194; 160; 13; 10]).
Proof.
  split; [reflexivity|]. split.
  - apply (getNormalizedFileContent_trimmed _ (Js.bytes [239; 187; 191])).
    apply list_elem_of_In. vm_compute. tauto.
  - apply (getNormalizedFileContent_trimmed _ (Js.bytes [194; 160])).
    apply list_elem_of_In. vm_compute. tauto.
Defined.

(** ** Common root, again *)

Lemma findCommonRoot_no_directory paths needle :
  Js.slash ∉ Js.stripLeadingSlash needle → findCommonRoot paths needle = [].
Proof.
  intros Hno. unfold findCommonRoot. by rewrite (split_no_sep _ _ Hno).
Qed.

(** X15: the common root is empty or an ancestor directory of the needle:
    a slash followed by a text that, with a [/] behind it, starts the
    needle (its leading slash apart). *)
Theorem findCommonRoot_ancestor (paths : list (list ascii))
    (needle : list ascii) :
  findCommonRoot paths needle = []
  ∨ ∃ root, findCommonRoot paths needle = Js.slash :: root
      ∧ (root ++ [Js.slash]) `prefix_of` Js.stripLeadingSlash needle.
Proof.
  destruct (split_last Js.slash (Js.stripLeadingSlash needle))
    as (segs & seg & _ & Hseg & [Hname | [dir Hname]]).
  { left. apply findCommonRoot_no_directory. by rewrite Hname. }
  rewrite (findCommonRoot_unfold paths needle dir seg Hname Hseg).
  destruct (Js.truthy dir); cbn [negb]; [|by left]. right.
  assert (Hprefix : ∀ p, segmentPrefix p dir →
            (p ++ [Js.slash]) `prefix_of` Js.stripLeadingSlash needle).
  { intros p [-> | [rest ->]]; rewrite Hname.
    - exists seg. by rewrite <- app_assoc.
    - exists (rest ++ Js.slash :: seg). by rewrite <- !app_assoc. }
  destruct (commonRootLoop _ _ _ _) as [root|] eqn:Hloop.
  - apply commonRootLoop_found in Hloop as (j & Hj & -> & _ & _).
    eexists. split; [done|]. by apply Hprefix, join_take_segmentPrefix.
  - exists dir. split; [done|]. apply Hprefix. by left.
Qed.

(** X16: when another path of the list lies in the directory of the needle
    or below it, the common root is that directory. *)
Theorem findCommonRoot_shared_directory (paths : list (list ascii))
    (needle other dir name : list ascii) :
  Js.stripLeadingSlash needle = dir ++ Js.slash :: name →
  Js.slash ∉ name → dir ≠ [] →
  other ∈ paths →
  Js.stripLeadingSlash other ≠ Js.stripLeadingSlash needle →
  (dir ++ [Js.slash]) `prefix_of` Js.stripLeadingSlash other →
  findCommonRoot paths needle = Js.slash :: dir.
Proof.
  intros Hname Hslash Hdir%truthy_true Hin Hne Hpre.
  rewrite (findCommonRoot_unfold paths needle dir name Hname Hslash), Hdir.
  cbn [negb].
  pose proof (split_length_pos Js.slash dir) as Hpos.
  destruct (length (Js.split Js.slash dir)) as [|n] eqn:Hlen; [lia|].
  cbn [commonRootLoop]. rewrite <- Hlen, firstn_all, join_split.
  assert (hasRelatedPaths (Js.stripLeadingSlash <$> paths)
            (Js.stripLeadingSlash needle) dir = true) as ->; [|done].
  apply hasRelatedPaths_shared. by exists other.
Qed.

Lemma findCommonRoot_shared_directory_witness :
  findCommonRoot [str "tiptap-node/image/image.tsx";
                  str "/tiptap-node/image/image.scss"]
                 (str "tiptap-node/image/image.tsx")
  = str "/tiptap-node/image".
Proof.
  apply (findCommonRoot_shared_directory _ _
           (str "/tiptap-node/image/image.scss") (str "tiptap-node/image")
           (str "image.tsx"));
    [reflexivity | | done | repeat constructor | done
    | by exists (str "image.scss")].
  intros Hin. apply list_elem_of_In in Hin. simpl in Hin.
  repeat (destruct Hin as [Hin|Hin]; [discriminate Hin|]). done.
Defined.

(** ** The file system, again *)

Section FsMore.
Implicit Types (fs : gmap (list ascii) Fs.Node) (p d : list ascii).














Lemma bare_plain p : Fs.trailing (Fs.bare p) = false.
Proof.
  unfold Fs.trailing, Fs.bare.
  destruct (Js.dropWhile Path.isSlash (reverse p)) as [|c r] eqn:Hdrop.
  - by destruct p.
  - apply andb_false_iff. right. unfold Js.endsWith.
    rewrite reverse_involutive.
    pose proof (dropWhile_head Path.isSlash (reverse p) c) as Hc.
    rewrite Hdrop in Hc. specialize (Hc eq_refl).
    unfold Path.isSlash in Hc. cbn [reverse rev_append Js.startsWith].
    change (reverse [Js.slash]) with [Js.slash]. cbn [Js.startsWith].
    rewrite Ascii.eqb_sym. by rewrite Hc.
Qed.







Lemma preservedExcept_refl written fs : preservedExcept written fs fs.
Proof. unfold preservedExcept. split_and!; eauto. Qed.

Lemma preservedExcept_trans l1 l2 fs1 fs2 fs3 :
  preservedExcept l1 fs1 fs2 → preservedExcept l2 fs2 fs3 →
  preservedExcept (l1 ++ l2) fs1 fs3.
Proof.
  intros (Hd1 & Hf1 & He1) (Hd2 & Hf2 & He2). split_and!.
  - eauto.
  - intros p data Hp. destruct (Hf1 _ _ Hp) as [data' Hp']. eauto.
  - intros p data Hp [Hn1 Hn2]%not_elem_of_app. eauto.
Qed.

Lemma preservedExcept_more l l' fs fs' :
  (∀ p, p ∈ l → p ∈ l') → preservedExcept l fs fs' → preservedExcept l' fs fs'.
Proof.
  intros Hsub (Hd & Hf & He). split_and!; [done..|].
  intros p data Hp Hnot. apply (He _ _ Hp). intros Hin. by apply Hnot, Hsub.
Qed.

Lemma mkdir_preservedExcept fs fs' d :
  Fs.mkdir fs d = inr fs' → preservedExcept [] fs fs'.
Proof.
  intros Hmk. split_and!.
  - intros p Hp. by eapply mkdir_preserves.
  - intros p data Hp. exists data. by eapply mkdir_preserves.
  - intros p data Hp _. by eapply mkdir_preserves.
Qed.

Lemma writeFile_preservedExcept fs fs' p data :
  Fs.writeFile fs p data = inr fs' → preservedExcept [p] fs fs'.
Proof.
  intros (-> & _ & _ & _ & Hnd)%writeFile_inr. split_and!.
  - intros q Hq. rewrite lookup_insert_ne; [done|]. by intros ->.
  - intros q old Hq. destruct (decide (p = q)) as [->|Hne].
    + rewrite lookup_insert_eq. eauto.
    + rewrite lookup_insert_ne by done. eauto.
  - intros q old Hq Hnot. rewrite lookup_insert_ne; [done|].
    intros ->. apply Hnot. by left.
Qed.

End FsMore.

(** ** The loop body, case by case *)

Section StepCases.
Variable transform : list ascii → list ascii → Config → bool → list ascii.
Variable confirm : nat → list ascii → bool.
Variable processCwd : list ascii.
Variables (config : Config) (options : Options).
Variables (info : option ProjectInfo) (allPaths : list (list ascii)).

Local Abbreviation step1 :=
  (updateFile transform confirm processCwd config options info allPaths).
Local Abbreviation resolved1 := (resolvedOf config info allPaths).
Local Abbreviation filePath1 := (filePathOf config info allPaths).
Local Abbreviation newContent1 := (newContentOf transform config).
Local Abbreviation entry1 := (entryOf processCwd config info allPaths).
Local Abbreviation isProcessed1 := (processed config info allPaths).







End StepCases.

(** ** What a run leaves alone *)

Section Invariants.
Variable transform : list ascii → list ascii → Config → bool → list ascii.
Variable getProjectInfo :
  gmap (list ascii) Fs.Node → list ascii → option ProjectInfo.
Variable confirm : nat → list ascii → bool.
Variable processCwd : list ascii.
Variables (config : Config) (options : Options).

Local Abbreviation step3 :=
  (updateFile transform confirm processCwd config options).
Local Abbreviation loop3 :=
  (updateLoop transform confirm processCwd config options).
Local Abbreviation run3 :=
  (updateFiles transform getProjectInfo confirm processCwd config options).

Lemma loggedLines_app a b :
  loggedLines (a ++ b) = loggedLines a ++ loggedLines b.
Proof. apply omap_app. Qed.

Lemma loggedLines_snoc events e :
  match e with Log _ => False | _ => True end →
  loggedLines (events ++ [e]) = loggedLines events.
Proof.
  intros He. unfold loggedLines. rewrite omap_app.
  destruct e; try done; cbn; by rewrite app_nil_r.
Qed.

Lemma loggedLines_logFiles entries :
  loggedLines (logFiles options entries)
  = if silent options then [] else (λ e, str "  - " ++ e) <$> entries.
Proof.
  unfold logFiles. destruct (silent options); [done|].
  induction entries as [|e entries IH]; [done|].
  rewrite !fmap_cons. unfold loggedLines in *. cbn [omap list_omap].
  by rewrite IH.
Qed.

Lemma length_zero_nil {A} (l : list A) : (length l =? 0) = true → l = [].
Proof. by destruct l. Qed.

Lemma loggedLines_summary m :
  loggedLines (summary options m)
  = if silent options then []
    else (λ e, str "  - " ++ e)
         <$> (filesCreated m ++ filesUpdated m ++ filesSkipped m).
Proof.
  unfold summary, loggedLines. rewrite !omap_app.
  fold loggedLines.
  assert (Hblock : ∀ (l : list (list ascii)) (head other : Event),
    match head with Log _ => False | _ => True end →
    match other with Log _ => False | _ => True end →
    loggedLines (if negb (length l =? 0)
                 then head :: logFiles options l else [other])
    = loggedLines (logFiles options l)).
  { intros l hd other Hhd Hother. destruct (length l =? 0) eqn:Hl; cbn [negb].
    - apply length_zero_nil in Hl as ->. unfold logFiles.
      destruct (silent options); by destruct other.
    - destruct hd; done. }
  assert (Hblock' : ∀ (l : list (list ascii)) (head : Event),
    match head with Log _ => False | _ => True end →
    loggedLines (if negb (length l =? 0)
                 then head :: logFiles options l else [])
    = loggedLines (logFiles options l)).
  { intros l hd Hhd. destruct (length l =? 0) eqn:Hl; cbn [negb].
    - apply length_zero_nil in Hl as ->. unfold logFiles.
      by destruct (silent options).
    - destruct hd; done. }
  rewrite Hblock, !Hblock', !loggedLines_logFiles by done.
  destruct (_ && _), (silent options); cbn [omap list_omap app];
    by rewrite ?app_nil_r, ?fmap_app.
Qed.

Section Body.
Variables (info : option ProjectInfo) (allPaths : list (list ascii)).

Local Abbreviation resolved3 := (resolvedOf config info allPaths).
Local Abbreviation filePath3 := (filePathOf config info allPaths).
Local Abbreviation newContent3 := (newContentOf transform config).
Local Abbreviation isProcessed3 := (processed config info allPaths).

(** Whatever way the loop body ends, it changes at most the file at the
    path it writes, asks at most one question and none with [overwrite]
    on, prints no line, and adds one entry when the file is processed and
    the body returns. *)
Lemma updateFile_outcome file m w :
  preservedExcept (if isProcessed3 file then [filePath3 file] else [])
    (fs w) (fs (worldOf (step3 info allPaths file m w)))
  ∧ asked w ≤ asked (worldOf (step3 info allPaths file m w))
  ∧ asked (worldOf (step3 info allPaths file m w))
    ≤ asked w + (if overwrite options then 0
                 else if isProcessed3 file then 1 else 0)
  ∧ loggedLines (trace (worldOf (step3 info allPaths file m w)))
    = loggedLines (trace w)
  ∧ ∀ m' w', step3 info allPaths file m w = Returned m' w' →
      entryCount m'
      = entryCount m + (if isProcessed3 file then 1 else 0).
Proof.
  destruct (isProcessed3 file) eqn:Hp.
  2:{ rewrite updateFile_excluded by done. cbn [worldOf].
      split_and!; [apply preservedExcept_refl | lia | lia | done |].
      intros m' w' [= <- <-]. lia. }
  pose proof Hp as [Hc Hres]%andb_true_iff.
  unfold updateFile. fold (resolved3 file). rewrite Hc, Hres. cbn [negb].
  fold (filePath3 file) (newContent3 file).
  unfold bind, existsSync, readFile, confirmOverwrite, writeAndRecord,
    askConfirm, bind, existsSync, mkdir, writeFile, when, call, ret.
  repeat (case_match; simplify_eq);
    cbn [worldOf fs asked trace emit setFs] in *;
    (split_and!;
     [ first [ apply preservedExcept_refl
             | eapply writeFile_preservedExcept; eassumption
             | eapply (preservedExcept_more []);
               [ by intros ? ?%elem_of_nil
               | eapply mkdir_preservedExcept; eassumption ]
             | eapply (preservedExcept_trans [] [_]);
               [ eapply mkdir_preservedExcept; eassumption
               | eapply writeFile_preservedExcept; eassumption ] ]
     | lia
     | lia
     | by rewrite !loggedLines_snoc by done
     | first [ by intros m' w' [=]
             | intros m' w' [= <- <-];
               unfold entryCount, pushSkipped, pushCreated, pushUpdated;
               cbn [filesCreated filesUpdated filesSkipped];
               rewrite length_app; cbn [length]; lia ] ]).
Qed.

(** The same for a list of files. *)
Lemma updateLoop_outcome files : ∀ m w,
  preservedExcept (filePath3 <$> filter (λ f, isProcessed3 f = true) files)
    (fs w) (fs (worldOf (loop3 info allPaths files m w)))
  ∧ asked w ≤ asked (worldOf (loop3 info allPaths files m w))
  ∧ asked (worldOf (loop3 info allPaths files m w))
    ≤ asked w + (if overwrite options then 0
                 else length (filter (λ f, isProcessed3 f = true) files))
  ∧ loggedLines (trace (worldOf (loop3 info allPaths files m w)))
    = loggedLines (trace w)
  ∧ ∀ m' w', loop3 info allPaths files m w = Returned m' w' →
      entryCount m'
      = entryCount m + length (filter (λ f, isProcessed3 f = true) files).
Proof.
  induction files as [|file files IH]; intros m w; cbn [updateLoop].
  { unfold ret. cbn [worldOf].
    split_and!; [apply preservedExcept_refl | lia | | done |].
    - destruct (overwrite options); cbn; lia.
    - intros m' w' [= <- <-]. cbn. lia. }
  destruct (updateFile_outcome file m w) as (Hfs & Hlo & Hhi & Hlog & Hcount).
  unfold bind.
  assert (Hlist : filePath3 <$> filter (λ f, isProcessed3 f = true)
                                  (file :: files)
          = (if isProcessed3 file then [filePath3 file] else [])
            ++ (filePath3 <$> filter (λ f, isProcessed3 f = true) files)).
  { destruct (isProcessed3 file) eqn:Hp.
    - by rewrite filter_cons_True by done.
    - rewrite filter_cons_False; [done|]. by rewrite Hp. }
  assert (Hlen : length (filter (λ f, isProcessed3 f = true) (file :: files))
          = (if isProcessed3 file then 1 else 0)
            + length (filter (λ f, isProcessed3 f = true) files)).
  { destruct (isProcessed3 file) eqn:Hp.
    - by rewrite filter_cons_True by done.
    - rewrite filter_cons_False; [done|]. by rewrite Hp. }
  rewrite Hlist, Hlen. clear Hlist Hlen.
  destruct (step3 info allPaths file m w) as [m1 w1|e w1] eqn:Hstep;
    cbn [worldOf] in *.
  - destruct (IH m1 w1) as (Hfs' & Hlo' & Hhi' & Hlog' & Hcount').
    split_and!.
    + by eapply preservedExcept_trans.
    + lia.
    + destruct (overwrite options), (isProcessed3 file); lia.
    + by rewrite Hlog'.
    + intros m' w' Hrest. rewrite (Hcount' _ _ Hrest), (Hcount _ _ eq_refl).
      lia.
  - split_and!.
    + eapply preservedExcept_more; [|exact Hfs].
      intros p Hp. apply elem_of_app. by left.
    + lia.
    + destruct (overwrite options), (isProcessed3 file); lia.
    + done.
    + done.
Qed.

End Body.

Lemma updateFiles_world files w :
  worldOf (run3 (Some files) w)
  = match files with
    | [] => w
    | _ :: _ =>
        let dir := cwd (resolvedPaths config) in
        match loop3 (getProjectInfo (fs w) dir) (path <$> files) files
                emptyManifest
                (emits [SpinnerStart (str "Updating files.") (silent options);
                        GetProjectInfo dir] w) with
        | Returned m w' => emits (summary options m) w'
        | Thrown _ w' => w'
        end
    end.
Proof.
  destruct files as [|file files]; [done|].
  rewrite updateFiles_unfold by done. cbn zeta.
  by destruct (updateLoop _ _ _ _ _ _ _ _ _ _).
Qed.

(** X21: whatever way a run ends, it removes nothing and changes the kind
    of no node: a directory stays a directory, a regular file stays a
    regular file, and a regular file keeps its content unless it is at the
    path a processed file of the batch is written to. *)
Theorem updateFiles_preserves (files : list RegistryFile) (w : World) :
  let info := getProjectInfo (fs w) (cwd (resolvedPaths config)) in
  let allPaths := path <$> files in
  preservedExcept
    (filePathOf config info allPaths
       <$> filter (λ f, processed config info allPaths f = true) files)
    (fs w) (fs (worldOf (run3 (Some files) w))).
Proof.
  intros info allPaths. rewrite updateFiles_world.
  destruct files as [|file files]; [apply preservedExcept_refl|].
  cbn zeta. fold info allPaths.
  destruct (updateLoop_outcome info allPaths (file :: files) emptyManifest
              (emits [SpinnerStart (str "Updating files.") (silent options);
                      GetProjectInfo (cwd (resolvedPaths config))] w))
    as (Hfs & _).
  by destruct (updateLoop _ _ _ _ _ _ _ _ _ _).
Qed.

(** X22: whatever way a run ends, it asks at most one question for each
    processed file, and none at all when [overwrite] is on. *)
Theorem updateFiles_prompts_bounded (files : list RegistryFile) (w : World) :
  let info := getProjectInfo (fs w) (cwd (resolvedPaths config)) in
  let allPaths := path <$> files in
  let w' := worldOf (run3 (Some files) w) in
  asked w ≤ asked w'
  ∧ asked w'
    ≤ asked w
      + (if overwrite options then 0
         else length (filter (λ f, processed config info allPaths f = true)
                        files)).
Proof.
  intros info allPaths w'. subst w'. rewrite updateFiles_world.
  destruct files as [|file files]; [lia|].
  cbn zeta. fold info allPaths.
  destruct (updateLoop_outcome info allPaths (file :: files) emptyManifest
              (emits [SpinnerStart (str "Updating files.") (silent options);
                      GetProjectInfo (cwd (resolvedPaths config))] w))
    as (_ & Hlo & Hhi & _).
  by destruct (updateLoop _ _ _ _ _ _ _ _ _ _).
Qed.

(** X23: a run that returns has recorded exactly one entry for each
    processed file of the batch, and none for the others. *)
Theorem updateFiles_entry_count (files : list RegistryFile) (w : World)
    (m : Manifest) (w' : World) :
  run3 (Some files) w = Returned m w' →
  let info := getProjectInfo (fs w) (cwd (resolvedPaths config)) in
  let allPaths := path <$> files in
  entryCount m
  = length (filter (λ f, processed config info allPaths f = true) files).
Proof.
  intros Hrun info allPaths. destruct files as [|file files].
  { by injection Hrun as <- <-. }
  rewrite updateFiles_unfold in Hrun by done. cbn zeta in Hrun.
  fold info allPaths in Hrun.
  destruct (updateLoop_outcome info allPaths (file :: files) emptyManifest
              (emits [SpinnerStart (str "Updating files.") (silent options);
                      GetProjectInfo (cwd (resolvedPaths config))] w))
    as (_ & _ & _ & _ & Hcount).
  destruct (updateLoop _ _ _ _ _ _ _ _ _ _) as [m0 w0|] eqn:Hloop; [|done].
  injection Hrun as <- <-. by rewrite (Hcount _ _ eq_refl).
Qed.

(** X24: the lines a run prints are those of the summary: when it returns
    and [silent] is off, one line for each entry of the manifest, created
    first, then updated, then skipped, each behind two spaces, a dash and a
    space; no line when [silent] is on or when the run is rejected. *)
Theorem updateFiles_logged_lines (files : list RegistryFile) (w : World) :
  loggedLines (trace (worldOf (run3 (Some files) w)))
  = loggedLines (trace w)
    ++ match run3 (Some files) w with
       | Returned m _ =>
           if silent options then []
           else (λ e, str "  - " ++ e)
                <$> (filesCreated m ++ filesUpdated m ++ filesSkipped m)
       | Thrown _ _ => []
       end.
Proof.
  rewrite updateFiles_world. destruct files as [|file files].
  { cbn. destruct (silent options); by rewrite app_nil_r. }
  rewrite updateFiles_unfold by done. cbn zeta.
  destruct (updateLoop_outcome
              (getProjectInfo (fs w) (cwd (resolvedPaths config)))
              (path <$> file :: files) (file :: files) emptyManifest
              (emits [SpinnerStart (str "Updating files.") (silent options);
                      GetProjectInfo (cwd (resolvedPaths config))] w))
    as (_ & _ & _ & Hlog & _).
  assert (Hstart : loggedLines
            (trace (emits [SpinnerStart (str "Updating files.")
                             (silent options);
                           GetProjectInfo (cwd (resolvedPaths config))] w))
          = loggedLines (trace w)).
  { unfold emits, loggedLines. cbn [trace]. rewrite omap_app. cbn.
    by rewrite app_nil_r. }
  destruct (updateLoop _ _ _ _ _ _ _ _ _ _) as [m0 w0|e w0];
    cbn [worldOf] in *.
  - unfold emits at 1. cbn [trace].
    by rewrite loggedLines_app, Hlog, Hstart, loggedLines_summary.
  - by rewrite Hlog, Hstart, app_nil_r.
Qed.

End Invariants.

(** ** What the common root depends on *)

Lemma hasRelatedPaths_ext (l l' : list (list ascii)) (needle p : list ascii) :
  (∀ q, q ∈ l ↔ q ∈ l') →
  hasRelatedPaths l needle p = hasRelatedPaths l' needle p.
Proof.
  intros Hsame. unfold hasRelatedPaths. apply eq_true_iff_eq.
  rewrite !existsb_exists.
  split; intros (q & Hq & Htest); exists q; (split; [|done]);
    apply list_elem_of_In; apply list_elem_of_In in Hq; by apply Hsame.
Qed.

Lemma commonRootLoop_ext (l l' : list (list ascii)) (needle : list ascii)
    (segs : list (list ascii)) (i : nat) :
  (∀ q, q ∈ l ↔ q ∈ l') →
  commonRootLoop l needle segs i = commonRootLoop l' needle segs i.
Proof.
  intros Hsame. induction i as [|i IH]; [done|]. cbn [commonRootLoop].
  by rewrite (hasRelatedPaths_ext l l' _ _ Hsame), IH.
Qed.

(** X25: the common root depends on the needle and on the paths only up to
    one leading slash, and on the paths only as a set: neither their order
    nor repetitions matter. *)
Theorem findCommonRoot_normalized (paths paths' : list (list ascii))
    (needle needle' : list ascii) :
  Js.stripLeadingSlash needle = Js.stripLeadingSlash needle' →
  (∀ q, q ∈ Js.stripLeadingSlash <$> paths
        ↔ q ∈ Js.stripLeadingSlash <$> paths') →
  findCommonRoot paths needle = findCommonRoot paths' needle'.
Proof.
  intros Hneedle Hpaths. unfold findCommonRoot. rewrite Hneedle.
  by rewrite (commonRootLoop_ext _ _ _ _ _ Hpaths).
Qed.

Lemma findCommonRoot_normalized_witness :
  findCommonRoot [str "/tiptap-ui/button/button.tsx";
                  str "tiptap-ui/button/index.ts"]
                 (str "tiptap-ui/button/button.tsx")
  = findCommonRoot [str "tiptap-ui/button/index.ts";
                    str "tiptap-ui/button/button.tsx";
                    str "/tiptap-ui/button/index.ts"]
                   (str "/tiptap-ui/button/button.tsx").
Proof.
  apply findCommonRoot_normalized; [reflexivity|].
  intros q. cbn. rewrite !elem_of_cons, !elem_of_nil.
  split; intros [H|[H|H]]; auto; destruct H as [H|[]]; auto.
Defined.

(** *** The further statements at sample inputs *)

Lemma resolvePageTarget_empty_iff_witness :
  resolvePageTarget (str "app/editor/page.tsx") (Some (str "vite")) = [].
Proof.
  apply (resolvePageTarget_empty_iff (str "app/editor/page.tsx")
           (Some (str "vite"))).
  right. intros name Hin. apply list_elem_of_In in Hin. simpl in Hin.
  destruct Hin as [<-|[<-|[<-|[<-|[]]]]]; discriminate.
Defined.

Lemma downgradeExtension_shape_witness :
  downgradeExtension (str "src/lib/utils.tsx") = str "src/lib/utils.jsx"
  ∧ downgradeExtension (str "src/lib/README.md") = str "src/lib/README.md".
Proof.
  destruct downgradeExtension_shape as (Htsx & _ & Hother & _).
  split; [apply (Htsx (str "src/lib/utils"))|].
  apply Hother; intros [stem Hstem];
    apply (f_equal (λ l, head (reverse l))) in Hstem;
    rewrite reverse_app in Hstem; vm_compute in Hstem; discriminate Hstem.
Defined.





Lemma updateFiles_entry_count_witness :
  entryCount {| filesCreated := [str "lib/a.ts"];
                filesUpdated := [str "lib/a.ts"];
                filesSkipped := [] |}
  = length (filter (λ f, processed Sample.config (Some Sample.info)
                           (path <$> [Sample.libA; Sample.noContent;
                                      Sample.libA']) f = true)
              [Sample.libA; Sample.noContent; Sample.libA']).
Proof.
  eapply (updateFiles_entry_count Sample.transform Sample.getProjectInfo
            Sample.confirm (str "/") Sample.config Sample.options
            [Sample.libA; Sample.noContent; Sample.libA'] Sample.emptyProject
            {| filesCreated := [str "lib/a.ts"];
               filesUpdated := [str "lib/a.ts"];
               filesSkipped := [] |}).
  vm_compute. reflexivity.
Defined.
